(** * Interactive three-statement model: base-year normalizer and forecast engine

    A shallow embedding of [interactive_three_statement_sec.py].

    Numbers.  Python floats are read as exact rationals ([Q]); binary
    rounding error, overflow and infinities are outside the model.  The one
    non-number a pandas cell can hold here, NaN (the content of a cell that
    was never assigned), is kept: a cell is an [option Q] and [None] is NaN.

    Tables.  A [pd.DataFrame] with fixed string columns is a list of row
    labels (the index, in order) together with a finite map from label to a
    record of cells, one field per column, and the dtype of its columns.  The
    dtype matters once: [DataFrame.round] rounds the columns of a numeric
    dtype and returns the others as they are, and the frames of [forecast],
    built without data and filled cell by cell, have dtype object.

    Errors.  Python exceptions are the [Raise] results of a small error
    monad.

    Text.  A Python string is a [string] read as its code points, all below
    256.  The interpreter's limit on the number of digits that [int] and
    [str] convert is outside the model.

    The outside world.  The two documents that the network calls fetch, and
    the lines that [input] reads, are arguments of the functions that use
    them. *)

From Stdlib Require Import ZArith QArith Qround Qminmax Lia List Sorted String Ascii Bool.
From Stdlib Require Import OrderedTypeEx.
From Stdlib Require DecimalString DecimalN DecimalPos DecimalFacts Qpower Lqa.
From stdpp Require Import gmap strings list.

Local Open Scope Z_scope.

(** ** Python numbers *)

Module Py.

(** A float cell; [None] is NaN. *)
Definition num : Type := option Q.

Definition fl (q : Q) : num := Some q.

Definition nan : num := None.

(** Arithmetic propagates NaN. *)
Definition lift2 (f : Q -> Q -> Q) (x y : num) : num :=
  match x, y with
  | Some a, Some b => Some (f a b)
  | _, _ => None
  end.

Definition add : num -> num -> num := lift2 Qplus.
Definition sub : num -> num -> num := lift2 Qminus.
Definition mul : num -> num -> num := lift2 Qmult.
Definition neg (x : num) : num := option_map Qopp x.

(** [x > y] on rationals. *)
Definition Qgtb (x y : Q) : bool := negb (Qle_bool x y).

(** [x > y]; every comparison with NaN is false. *)
Definition gt (x y : num) : bool :=
  match x, y with
  | Some a, Some b => Qgtb a b
  | _, _ => false
  end.

(** The builtin [max(a, b)]: the first argument is kept unless the second
    compares strictly greater. *)
Definition max (a b : num) : num := if gt b a then b else a.

(** The same builtin on two floats that are numbers. *)
Definition maxQ (a b : Q) : Q := if Qgtb b a then b else a.

(** [Series.sum()] with pandas' defaults ([skipna=True], [min_count=0]):
    NaN entries count as 0, the rest is added left to right. *)
Definition fillna0 (x : num) : Q := default 0%Q x.

Definition nansum (l : list num) : num :=
  match map fillna0 l with
  | [] => Some 0%Q
  | x :: r => Some (fold_left Qplus r x)
  end.

(** Rounding to the nearest integer, ties to the even one (numpy's [rint]). *)
Definition rint (q : Q) : Z :=
  let f := Qfloor q in
  match Qcompare (q - inject_Z f) (1 # 2) with
  | Lt => f
  | Gt => f + 1
  | Eq => if Z.even f then f else f + 1
  end.

(** [numpy.around(q, decimals)] for [decimals >= 0]: scale, [rint], scale back. *)
Definition around (decimals : N) (q : Q) : Q :=
  let scale := inject_Z (10 ^ Z.of_N decimals) in
  (inject_Z (rint (q * scale)) / scale)%Q.

Definition round (decimals : N) (x : num) : num := option_map (around decimals) x.

(** [range(lo, hi)] *)
Definition range (lo hi : Z) : list Z :=
  map (fun i => lo + Z.of_nat i) (seq 0 (Z.to_nat (hi - lo))).

End Py.

Coercion Py.fl : Q >-> Py.num.

Declare Scope num_scope.
Delimit Scope num_scope with num.
Bind Scope num_scope with Py.num.
Infix "+" := Py.add : num_scope.
Infix "-" := Py.sub : num_scope.
Infix "*" := Py.mul : num_scope.
Notation "- x" := (Py.neg x) : num_scope.

(** ** The two input records *)

Module BaseYear.
Record t : Type := make {
  year : Z;
  revenue : Q;
  cogs : Q;
  sga : Q;
  da : Q;
  interest : Q;
  tax_rate : Q;
  net_income : Q;
  cash : Q;
  ar : Q;
  inventory : Q;
  other_current_assets : Q;
  ppe_net : Q;
  other_noncurrent_assets : Q;
  ap : Q;
  accrued_liabilities : Q;
  other_current_liabilities : Q;
  long_term_debt : Q;
  other_noncurrent_liabilities : Q;
  common_equity : Q
}.
End BaseYear.

Module Assumptions.
Record t : Type := make {
  years : Z;
  revenue_growth : Q;
  cogs_pct_rev : Q;
  sga_pct_rev : Q;
  da_pct_rev : Q;
  interest_pct_debt : Q;
  tax_rate : Q;
  ar_pct_rev : Q;
  inv_pct_rev : Q;
  ap_pct_rev : Q;
  accrued_pct_rev : Q;
  capex_pct_rev : Q;
  target_debt_pct_assets : Q
}.
End Assumptions.

(** ** Data frames *)

Module Frame.

(** Rows of a frame whose cells are all NaN. *)
Class Blank (R : Type) : Type := blank : R.

(** The dtype that the columns of a frame share. *)
Inductive dtype : Type := object | float64.

Section Frame.
Context {R : Type} `{Blank R}.

Record DataFrame : Type :=
  make { index : list Z; rows : gmap Z R; dtypes : dtype }.

(** [pd.DataFrame(index=labels, columns=...)], without data: one all-NaN row
    per label, in columns of dtype object. *)
Definition create (labels : list Z) : DataFrame :=
  {| index := labels;
     rows := list_to_map (map (fun y => (y, blank)) labels);
     dtypes := object |}.

(** [df.loc[y]], the row labelled [y].  A label outside the index raises
    KeyError in pandas; [forecast] only reads labels of its index (lemma
    [prior_year_in_index] below), so the row is given a default here. *)
Definition loc (df : DataFrame) (y : Z) : R := default blank (rows df !! y).

(** [df.loc[y, cols] = values] with Python floats for values, written as an
    update [f] of the row.  A label outside the index appends a new row
    (pandas' setting with enlargement).  The columns keep their dtype: an
    object column holds the floats as they are. *)
Definition set_loc (df : DataFrame) (y : Z) (f : R -> R) : DataFrame :=
  {| index := if decide (y ∈ index df) then index df else index df ++ [y];
     rows := <[y := f (loc df y)]> (rows df);
     dtypes := dtypes df |}.

(** A cell-wise map that keeps index and dtype. *)
Definition map_rows (f : R -> R) (df : DataFrame) : DataFrame :=
  {| index := index df; rows := f <$> rows df; dtypes := dtypes df |}.

(** [df.round(decimals)], with [round_row] the rounding of the cells of one
    row: columns of a float dtype are rounded, columns of any other dtype come
    back unchanged. *)
Definition round (round_row : R -> R) (df : DataFrame) : DataFrame :=
  match dtypes df with
  | float64 => map_rows round_row df
  | object => df
  end.

End Frame.

Arguments DataFrame R : clear implicits.

End Frame.

Import Frame.

(** ** The forecast engine *)

Module Forecast.

Import Py.

(** Columns ["Revenue", "EBIT", "Net Income"]. *)
Record IS_row : Type := { Revenue : num; EBIT : num; Net_Income : num }.

(** Columns ["Cash", "Debt", "Equity", "Assets"]. *)
Record BS_row : Type := { Cash : num; Debt : num; Equity : num; Assets : num }.

(** Columns ["CFO", "CFI", "CFF", "ΔCash"]. *)
Record CF_row : Type := { CFO : num; CFI : num; CFF : num; dCash : num }.

#[export] Instance IS_blank : Blank IS_row :=
  {| Revenue := nan; EBIT := nan; Net_Income := nan |}.
#[export] Instance BS_blank : Blank BS_row :=
  {| Cash := nan; Debt := nan; Equity := nan; Assets := nan |}.
#[export] Instance CF_blank : Blank CF_row :=
  {| CFO := nan; CFI := nan; CFF := nan; dCash := nan |}.

(** Assignment to one column of a row. *)
Definition set_Revenue (v : num) (r : IS_row) : IS_row :=
  {| Revenue := v; EBIT := EBIT r; Net_Income := Net_Income r |}.
Definition set_EBIT (v : num) (r : IS_row) : IS_row :=
  {| Revenue := Revenue r; EBIT := v; Net_Income := Net_Income r |}.
Definition set_Net_Income (v : num) (r : IS_row) : IS_row :=
  {| Revenue := Revenue r; EBIT := EBIT r; Net_Income := v |}.

Definition set_Cash (v : num) (r : BS_row) : BS_row :=
  {| Cash := v; Debt := Debt r; Equity := Equity r; Assets := Assets r |}.
Definition set_Debt (v : num) (r : BS_row) : BS_row :=
  {| Cash := Cash r; Debt := v; Equity := Equity r; Assets := Assets r |}.
Definition set_Equity (v : num) (r : BS_row) : BS_row :=
  {| Cash := Cash r; Debt := Debt r; Equity := v; Assets := Assets r |}.
Definition set_Assets (v : num) (r : BS_row) : BS_row :=
  {| Cash := Cash r; Debt := Debt r; Equity := Equity r; Assets := v |}.

Definition set_CFO (v : num) (r : CF_row) : CF_row :=
  {| CFO := v; CFI := CFI r; CFF := CFF r; dCash := dCash r |}.
Definition set_CFI (v : num) (r : CF_row) : CF_row :=
  {| CFO := CFO r; CFI := v; CFF := CFF r; dCash := dCash r |}.
Definition set_CFF (v : num) (r : CF_row) : CF_row :=
  {| CFO := CFO r; CFI := CFI r; CFF := v; dCash := dCash r |}.
Definition set_dCash (v : num) (r : CF_row) : CF_row :=
  {| CFO := CFO r; CFI := CFI r; CFF := CFF r; dCash := v |}.

(** The local variables of one pass through the loop.  They are not part of
    what [forecast] returns; the loop records them so that statements about
    interest, taxes and capex have something to talk about. *)
Record Locals : Type :=
  { l_ebit : num; l_interest : num; l_taxes : num; l_ni : num; l_capex : num }.

(** The three frames under construction, and the locals of the passes made. *)
Record State : Type :=
  { IS : DataFrame IS_row;
    BS : DataFrame BS_row;
    CF : DataFrame CF_row;
    locals : gmap Z Locals }.

(** [[base.year] + [base.year + i for i in range(1, a.years + 1)]] *)
Definition years (base : BaseYear.t) (a : Assumptions.t) : list Z :=
  [BaseYear.year base]
    ++ map (fun i => BaseYear.year base + i) (range 1 (Assumptions.years a + 1)).

(** Lines 164-170: the frames are created and the base-year row is seeded. *)
Definition seed (base : BaseYear.t) (a : Assumptions.t) : State :=
  let years := years base a in
  let IS := create years in
  let BS := create years in
  let CF := create years in
  let IS := set_loc IS (BaseYear.year base)
              (fun r => set_Net_Income (BaseYear.net_income base)
                          (set_Revenue (BaseYear.revenue base) r)) in
  let BS := set_loc BS (BaseYear.year base)
              (fun r => set_Equity (BaseYear.common_equity base)
                          (set_Debt (BaseYear.long_term_debt base)
                             (set_Cash (BaseYear.cash base) r))) in
  let BS := set_loc BS (BaseYear.year base)
              (set_Assets (BaseYear.cash base + BaseYear.ppe_net base
                           + BaseYear.other_current_assets base
                           + BaseYear.other_noncurrent_assets base)%Q) in
  {| IS := IS; BS := BS; CF := CF; locals := ∅ |}.

(** Lines 173-191: the body of [for y in years[1:]]. *)
Definition body (a : Assumptions.t) (s : State) (y : Z) : State :=
  let IS := IS s in
  let BS := BS s in
  let CF := CF s in
  let y0 := y - 1 in
  let IS := set_loc IS y
              (set_Revenue (Revenue (loc IS y0) * (1 + Assumptions.revenue_growth a)%Q)) in
  let ebit := (Revenue (loc IS y)
               * (1 - Assumptions.cogs_pct_rev a - Assumptions.sga_pct_rev a
                  - Assumptions.da_pct_rev a)%Q)%num in
  let interest := (Debt (loc BS y0) * Assumptions.interest_pct_debt a)%num in
  let taxes := max 0%Q ((ebit - interest) * Assumptions.tax_rate a)%num in
  let ni := (ebit - interest - taxes)%num in
  let IS := set_loc IS y (fun r => set_Net_Income ni (set_EBIT ebit r)) in
  let BS := set_loc BS y (set_Equity (Equity (loc BS y0) + ni)%num) in
  let BS := set_loc BS y
              (set_Debt (Assumptions.target_debt_pct_assets a * Assets (loc BS y0))%num) in
  let capex := (Revenue (loc IS y) * Assumptions.capex_pct_rev a)%num in
  let CF := set_loc CF y (set_CFO ni) in
  let CF := set_loc CF y (set_CFI (- capex)%num) in
  let CF := set_loc CF y (set_CFF (Debt (loc BS y) - Debt (loc BS y0))%num) in
  let CF := set_loc CF y
              (set_dCash (nansum [CFO (loc CF y); CFI (loc CF y); CFF (loc CF y)])) in
  let BS := set_loc BS y (set_Cash (Cash (loc BS y0) + dCash (loc CF y))%num) in
  let BS := set_loc BS y
              (set_Assets (Cash (loc BS y) + Debt (loc BS y) + Equity (loc BS y))%num) in
  {| IS := IS; BS := BS; CF := CF;
     locals := <[y := {| l_ebit := ebit; l_interest := interest; l_taxes := taxes;
                         l_ni := ni; l_capex := capex |}]> (locals s) |}.

(** The frames as they stand when the loop has ended, before [round(2)]. *)
Definition run (base : BaseYear.t) (a : Assumptions.t) : State :=
  fold_left (body a) (tail (years base a)) (seed base a).

(** Rounding every cell of a row to [d] decimals. *)
Definition round_IS (d : N) (r : IS_row) : IS_row :=
  {| Revenue := Py.round d (Revenue r); EBIT := Py.round d (EBIT r);
     Net_Income := Py.round d (Net_Income r) |}.
Definition round_BS (d : N) (r : BS_row) : BS_row :=
  {| Cash := Py.round d (Cash r); Debt := Py.round d (Debt r);
     Equity := Py.round d (Equity r); Assets := Py.round d (Assets r) |}.
Definition round_CF (d : N) (r : CF_row) : CF_row :=
  {| CFO := Py.round d (CFO r); CFI := Py.round d (CFI r);
     CFF := Py.round d (CFF r); dCash := Py.round d (dCash r) |}.

(** The returned dict [{"IS": ..., "BS": ..., "CF": ...}]. *)
Record Tables : Type :=
  { tIS : DataFrame IS_row; tBS : DataFrame BS_row; tCF : DataFrame CF_row }.

Definition forecast (base : BaseYear.t) (a : Assumptions.t) : Tables :=
  let s := run base a in
  {| tIS := Frame.round (round_IS 2) (IS s);
     tBS := Frame.round (round_BS 2) (BS s);
     tCF := Frame.round (round_CF 2) (CF s) |}.

(** The scenario of the specification. *)
Definition base_2023 : BaseYear.t :=
  {| BaseYear.year := 2023; BaseYear.revenue := 100; BaseYear.cogs := 0;
     BaseYear.sga := 0; BaseYear.da := 0; BaseYear.interest := 0;
     BaseYear.tax_rate := 0.21; BaseYear.net_income := 10; BaseYear.cash := 20;
     BaseYear.ar := 0; BaseYear.inventory := 0; BaseYear.other_current_assets := 0;
     BaseYear.ppe_net := 0; BaseYear.other_noncurrent_assets := 0; BaseYear.ap := 0;
     BaseYear.accrued_liabilities := 0; BaseYear.other_current_liabilities := 0;
     BaseYear.long_term_debt := 30; BaseYear.other_noncurrent_liabilities := 0;
     BaseYear.common_equity := 50 |}.

Definition assumptions_1y : Assumptions.t :=
  {| Assumptions.years := 1; Assumptions.revenue_growth := 0.10;
     Assumptions.cogs_pct_rev := 0.5; Assumptions.sga_pct_rev := 0.2;
     Assumptions.da_pct_rev := 0.05; Assumptions.interest_pct_debt := 0.05;
     Assumptions.tax_rate := 0.21; Assumptions.ar_pct_rev := 0;
     Assumptions.inv_pct_rev := 0; Assumptions.ap_pct_rev := 0;
     Assumptions.accrued_pct_rev := 0; Assumptions.capex_pct_rev := 0.03;
     Assumptions.target_debt_pct_assets := 0.10 |}.

(** The assumptions that [__main__] builds from the two prompted values
    (lines 203-217). *)
Definition main_assumptions (years : Z) (growth : Q) : Assumptions.t :=
  {| Assumptions.years := years; Assumptions.revenue_growth := growth;
     Assumptions.cogs_pct_rev := 0.60; Assumptions.sga_pct_rev := 0.20;
     Assumptions.da_pct_rev := 0.04; Assumptions.interest_pct_debt := 0.06;
     Assumptions.tax_rate := 0.21; Assumptions.ar_pct_rev := 0.10;
     Assumptions.inv_pct_rev := 0.05; Assumptions.ap_pct_rev := 0.08;
     Assumptions.accrued_pct_rev := 0.04; Assumptions.capex_pct_rev := 0.05;
     Assumptions.target_debt_pct_assets := 0.10 |}.

(** A small company: the income statement and balance sheet of fiscal 2023. *)
Definition small_company (revenue : Q) : BaseYear.t :=
  {| BaseYear.year := 2023; BaseYear.revenue := revenue; BaseYear.cogs := 600;
     BaseYear.sga := 200; BaseYear.da := 40; BaseYear.interest := 18;
     BaseYear.tax_rate := 0.21; BaseYear.net_income := 100; BaseYear.cash := 200;
     BaseYear.ar := 0; BaseYear.inventory := 0; BaseYear.other_current_assets := 0;
     BaseYear.ppe_net := 50; BaseYear.other_noncurrent_assets := 0; BaseYear.ap := 0;
     BaseYear.accrued_liabilities := 0; BaseYear.other_current_liabilities := 0;
     BaseYear.long_term_debt := 300; BaseYear.other_noncurrent_liabilities := 0;
     BaseYear.common_equity := 500 |}.

End Forecast.

(** ** The base-year normalizer *)

Module Sec.

(** The exceptions the normalizer can raise. *)
Inductive exn : Type := KeyError | TypeError | ValueError.

Inductive result (A : Type) : Type :=
| Ok (a : A)
| Raise (e : exn).
Arguments Ok {A} a.
Arguments Raise {A} e.

Definition bind {A B : Type} (m : result A) (k : A -> result B) : result B :=
  match m with
  | Ok a => k a
  | Raise e => Raise e
  end.

Notation "'let*' x := m 'in' k" := (bind m (fun x => k))
  (at level 10, x name, m at level 100, k at level 200, only parsing).

(** One reported value of a concept, as the company-facts document gives it.
    A field read with [.get] may be missing ([None]); so may ["val"], whose
    plain subscript then raises KeyError. *)
Record Fact : Type :=
  { fp : option string;
    end_ : option string;
    filed : option string;
    fy : option Z;
    val : option Q }.

(** [facts["facts"][taxonomy][tag]["units"][unit]] is a list of records. *)
Record Concept : Type := { units : option (gmap string (list Fact)) }.

Record CompanyFacts : Type := { facts : option (gmap string (gmap string Concept)) }.

(** The subscript chain of line 97; [None] stands for the KeyError that the
    [try] catches, whichever key was missing. *)
Definition usd_items (f : CompanyFacts) (tag : string) : option (list Fact) :=
  match facts f with
  | None => None
  | Some taxonomies =>
      match taxonomies !! "us-gaap"%string with
      | None => None
      | Some concepts =>
          match concepts !! tag with
          | None => None
          | Some c =>
              match units c with
              | None => None
              | Some u => u !! "USD"%string
              end
          end
      end
  end.

(** [x.get("fp") == "FY"] *)
Definition is_annual (x : Fact) : bool :=
  match fp x with
  | Some s => String.eqb s "FY"
  | None => false
  end.

(** The sort key [(x.get("end", ""), x.get("filed", ""))]. *)
Definition key (x : Fact) : string * string :=
  (default ""%string (end_ x), default ""%string (filed x)).

(** [a < b] on pairs of strings: code points in order, then the second
    component. *)
Definition key_ltb (a b : string * string) : bool :=
  match String.compare (fst a) (fst b) with
  | Lt => true
  | Gt => false
  | Eq => String.ltb (snd a) (snd b)
  end.

(** [sorted(l, key=key)]: ascending and stable, so a record goes behind every
    record whose key is not greater. *)
Fixpoint insert (x : Fact) (l : list Fact) : list Fact :=
  match l with
  | [] => [x]
  | y :: l' => if key_ltb (key x) (key y) then x :: y :: l' else y :: insert x l'
  end.

Definition sorted (l : list Fact) : list Fact :=
  fold_left (fun acc x => insert x acc) l [].

(** Whitespace that [str.strip] removes, among the code points below 256. *)
Definition is_space (c : ascii) : bool :=
  let n := N_of_ascii c in
  ((9 <=? n) && (n <=? 13) || (28 <=? n) && (n <=? 32) || (n =? 133) || (n =? 160))%N.

(** Whitespace that [int] skips around a literal: the same without the four
    separators U+001C to U+001F, which [int] rejects. *)
Definition is_int_space (c : ascii) : bool :=
  let n := N_of_ascii c in
  ((9 <=? n) && (n <=? 13) || (n =? 32) || (n =? 133) || (n =? 160))%N.

Definition digit (c : ascii) : option Z :=
  let n := N_of_ascii c in
  if ((48 <=? n) && (n <=? 57))%N then Some (Z.of_N n - 48) else None.

Fixpoint lstrip (s : list ascii) : list ascii :=
  match s with
  | c :: s' => if is_space c then lstrip s' else s
  | [] => []
  end.

Definition strip (s : list ascii) : list ascii := rev (lstrip (rev (lstrip s))).

(** The same with the whitespace of [int]. *)
Fixpoint int_lstrip (s : list ascii) : list ascii :=
  match s with
  | c :: s' => if is_int_space c then int_lstrip s' else s
  | [] => []
  end.

Definition int_strip (s : list ascii) : list ascii :=
  rev (int_lstrip (rev (int_lstrip s))).

(** Decimal digits with single underscores between them; [acc] is the value
    read so far and [after_digit] tells whether the last character was a digit. *)
Fixpoint digits (s : list ascii) (acc : Z) (after_digit : bool) : option Z :=
  match s with
  | [] => if after_digit then Some acc else None
  | c :: s' =>
      match digit c with
      | Some d => digits s' (10 * acc + d) true
      | None =>
          if Ascii.eqb c "_" && after_digit then digits s' acc false else None
      end
  end.

(** [int(s)] for a string; ValueError when [s] is not a decimal literal. *)
Definition int (s : string) : result Z :=
  let parsed :=
    match int_strip (list_ascii_of_string s) with
    | "+"%char :: r => digits r 0 false
    | "-"%char :: r => option_map Z.opp (digits r 0 false)
    | r => digits r 0 false
    end in
  match parsed with
  | Some n => Ok n
  | None => Raise ValueError
  end.

(** [s[:n]] *)
Fixpoint prefix (n : nat) (s : string) : string :=
  match n, s with
  | S n', String c s' => String c (prefix n' s')
  | _, _ => EmptyString
  end.

(** Line 104: [latest.get("fy") or int(latest.get("end", "0000")[:4])]. *)
Definition year_of (latest : Fact) : result Z :=
  match fy latest with
  | Some n => if n =? 0 then int (prefix 4 (default "0000"%string (end_ latest))) else Ok n
  | None => int (prefix 4 (default "0000"%string (end_ latest)))
  end.

(** [float(latest["val"])] *)
Definition val_of (latest : Fact) : result Q :=
  match val latest with
  | Some v => Ok v
  | None => Raise KeyError
  end.

(** Lines 104-105. *)
Definition read (latest : Fact) : result (Z * Q) :=
  let* year := year_of latest in
  let* v := val_of latest in
  Ok (year, v).

Definition pick_latest_annual_usd (f : CompanyFacts) (tag : string)
  : result (option (Z * Q)) :=
  match usd_items f tag with
  | None => Ok None
  | Some items =>
      let annual := List.filter is_annual items in
      match annual with
      | [] => Ok None
      | x :: _ =>
          let latest := List.last (sorted annual) x in
          let* out := read latest in
          Ok (Some out)
      end
  end.

(** The inner [get(tag)]: [out[1] if out else 0.0]. *)
Definition get (f : CompanyFacts) (tag : string) : result Q :=
  let* out := pick_latest_annual_usd f tag in
  Ok (match out with
      | Some (_, v) => v
      | None => 0.0%Q
      end).

(** [x or y] on floats: [x] unless it equals zero. *)
Definition or_else (x y : Q) : Q := if Qeq_bool x 0 then y else x.

(** [pick_latest_annual_usd(facts, "Revenues")[0]]; subscripting [None]
    raises TypeError. *)
Definition base_year (f : CompanyFacts) : result Z :=
  let* out := pick_latest_annual_usd f "Revenues" in
  match out with
  | Some (y, _) => Ok y
  | None => Raise TypeError
  end.

(** The normalizer, from the fetched facts on.  The two network calls that
    turn the ticker into [f] (lines 109-110) are collaborators outside the
    model. *)
Definition build_base_year_from_sec (f : CompanyFacts) : result BaseYear.t :=
  let* revenue := get f "Revenues" in
  let* cogs := get f "CostOfRevenue" in
  let* sga := get f "SellingGeneralAndAdministrativeExpense" in
  let* da := get f "DepreciationDepletionAndAmortization" in
  let* interest := get f "InterestExpense" in
  let* net_income := get f "NetIncomeLoss" in
  let* assets := get f "Assets" in
  let* liabilities := get f "Liabilities" in
  let* cash := get f "CashAndCashEquivalentsAtCarryingValue" in
  let* ar := get f "AccountsReceivableNetCurrent" in
  let* inventory := get f "InventoryNet" in
  let* ppe := get f "PropertyPlantAndEquipmentNet" in
  let* ap := get f "AccountsPayableCurrent" in
  let* accrued := get f "AccruedLiabilitiesCurrent" in
  let* debt := get f "LongTermDebtNoncurrent" in
  let* reported_equity := get f "StockholdersEquity" in
  let equity := or_else reported_equity (assets - liabilities)%Q in
  let other_assets := Py.maxQ 0.0%Q (assets - (cash + ar + inventory + ppe))%Q in
  let other_liab := Py.maxQ 0.0%Q (liabilities - (ap + accrued + debt))%Q in
  let* year := base_year f in
  Ok {| BaseYear.year := year;
        BaseYear.revenue := revenue;
        BaseYear.cogs := cogs;
        BaseYear.sga := sga;
        BaseYear.da := da;
        BaseYear.interest := interest;
        BaseYear.tax_rate := 0.21%Q;
        BaseYear.net_income := net_income;
        BaseYear.cash := cash;
        BaseYear.ar := ar;
        BaseYear.inventory := inventory;
        BaseYear.other_current_assets := (other_assets * 0.5)%Q;
        BaseYear.ppe_net := ppe;
        BaseYear.other_noncurrent_assets := (other_assets * 0.5)%Q;
        BaseYear.ap := ap;
        BaseYear.accrued_liabilities := accrued;
        BaseYear.other_current_liabilities := (other_liab * 0.5)%Q;
        BaseYear.long_term_debt := debt;
        BaseYear.other_noncurrent_liabilities := (other_liab * 0.5)%Q;
        BaseYear.common_equity := equity |}.

(** The sixteen concepts that the normalizer looks up (lines 116-132). *)
Definition concepts : list string :=
  [ "Revenues"; "CostOfRevenue"; "SellingGeneralAndAdministrativeExpense";
    "DepreciationDepletionAndAmortization"; "InterestExpense"; "NetIncomeLoss";
    "Assets"; "Liabilities"; "CashAndCashEquivalentsAtCarryingValue";
    "AccountsReceivableNetCurrent"; "InventoryNet"; "PropertyPlantAndEquipmentNet";
    "AccountsPayableCurrent"; "AccruedLiabilitiesCurrent"; "LongTermDebtNoncurrent";
    "StockholdersEquity" ]%string.

(** A company-facts document that reports the given USD records for each of
    the given us-gaap concepts, and nothing else. *)
Definition document (reported : list (string * list Fact)) : CompanyFacts :=
  {| facts :=
       Some {[ "us-gaap"%string :=
                 list_to_map
                   (map (fun '(tag, items) =>
                           (tag, {| units := Some {[ "USD"%string := items ]} |}))
                      reported) ]} |}.

(** An annual record as a 10-K gives it. *)
Definition annual_fact (period_end filing_date : string) (fiscal_year : Z) (v : Q) : Fact :=
  {| fp := Some "FY"%string; end_ := Some period_end; filed := Some filing_date;
     fy := Some fiscal_year; val := Some v |}.


End Sec.

(** ** The ticker resolver *)

Module Resolver.

Import Sec.

(** One entry of the ticker map ([company_tickers.json]): the ticker, read
    with [.get], and the CIK, a JSON integer read with a plain subscript. *)
Record TickerRecord : Type :=
  { ticker : option string;
    cik_str : option Z }.

(** [c.upper()] for a code point below 256, as code points: the micro sign
    and y with diaeresis leave Latin-1, sharp s becomes two letters. *)
Definition upper_char (c : ascii) : list N :=
  let n := N_of_ascii c in
  if ((97 <=? n) && (n <=? 122))%N then [n - 32]%N
  else if (n =? 181)%N then [924%N]
  else if (n =? 223)%N then [83%N; 83%N]
  else if ((224 <=? n) && (n <=? 254) && negb (n =? 247))%N then [n - 32]%N
  else if (n =? 255)%N then [376%N]
  else [n].

(** [s.upper()] *)
Definition upper (s : string) : list N := flat_map upper_char (list_ascii_of_string s).

(** [str(n)] for [n >= 0]. *)
Definition decimal (n : Z) : string :=
  DecimalString.NilZero.string_of_uint (N.to_uint (Z.to_N n)).

(** [s.zfill(width)] for a string of digits. *)
Definition zfill (width : nat) (s : string) : string :=
  string_of_list_ascii (repeat "0"%char (width - String.length s)) ++ s.

(** [f"{n:010d}"]: the sign, if any, then zeros up to ten characters in all. *)
Definition format_010d (n : Z) : string :=
  if n <? 0 then String "-" (zfill 9 (decimal (- n))) else zfill 10 (decimal n).

(** [ticker_to_cik], from the fetched ticker map on: [data] lists
    [data.items()] in order (lines 85-88). *)
Fixpoint ticker_to_cik (data : list (string * TickerRecord)) (symbol : string)
  : result string :=
  match data with
  | [] => Raise ValueError
  | (_, rec) :: data' =>
      if bool_decide (upper (default ""%string (ticker rec)) = upper symbol) then
        match cik_str rec with
        | Some n => Ok (format_010d n)
        | None => Raise KeyError
        end
      else ticker_to_cik data' symbol
  end.

End Resolver.

(** ** The prompts *)

Module Prompt.

Import Py Sec.

(** [s.strip()] *)
Definition strip (s : string) : string :=
  string_of_list_ascii (Sec.strip (list_ascii_of_string s)).

(** In the three prompts, [line] is what [input] has returned; writing the
    prompt text, which is all that [label] is used for, is not modelled. *)
Definition prompt_str (label default line : string) : string :=
  let raw := strip line in
  if String.eqb raw "" then default else raw.

Definition prompt_int (label : string) (default : Z) (line : string) : result Z :=
  let raw := strip line in
  if String.eqb raw "" then Ok default else int raw.

Section Pct.

(** [float(s)] for a string is left open: a number, NaN, or ValueError. *)
Variable float : string -> result num.

Definition prompt_pct (label : string) (default : Q) (line : string) : result num :=
  let raw := strip line in
  if String.eqb raw "" then Ok (Some default)
  else
    let* x := float raw in
    Ok (if gt x 1.0%Q then lift2 Qdiv x 100.0%Q else x).

End Pct.

End Prompt.

(** * Notions used in the statements *)

Import Py Forecast Sec.

(** ** Frames and the loop *)

(** A frame has a row for exactly the labels of its index. *)
Definition keyed {R : Type} (df : DataFrame R) : Prop :=
  forall z : Z, is_Some (rows df !! z) <-> z ∈ index df.

(** The state when the first [k] projected years have been processed. *)
Definition after (b : BaseYear.t) (a : Assumptions.t) (k : nat) : State :=
  fold_left (body a) (map (fun i : nat => BaseYear.year b + Z.of_nat i) (seq 1 k))
    (seed b a).

(** The base-year rows as lines 168-170 seed them. *)
Definition seeded_IS (b : BaseYear.t) : IS_row :=
  {| Revenue := Some (BaseYear.revenue b); EBIT := nan;
     Net_Income := Some (BaseYear.net_income b) |}.

Definition seeded_BS (b : BaseYear.t) : BS_row :=
  {| Cash := Some (BaseYear.cash b);
     Debt := Some (BaseYear.long_term_debt b);
     Equity := Some (BaseYear.common_equity b);
     Assets := Some (BaseYear.cash b + BaseYear.ppe_net b
                     + BaseYear.other_current_assets b
                     + BaseYear.other_noncurrent_assets b)%Q |}.

(** The relation that one pass of the loop sets up between row [y] and row
    [y - 1], cell by cell, in the arithmetic of the cells. *)
Definition recurrence (a : Assumptions.t) (s : State) (y : Z) : Prop :=
  let i0 := loc (IS s) (y - 1) in
  let b0 := loc (BS s) (y - 1) in
  let i1 := loc (IS s) y in
  let b1 := loc (BS s) y in
  let c1 := loc (CF s) y in
  exists l : Locals,
    locals s !! y = Some l
    /\ Revenue i1 = (Revenue i0 * (1 + Assumptions.revenue_growth a)%Q)%num
    /\ l_ebit l = (Revenue i1 * (1 - Assumptions.cogs_pct_rev a - Assumptions.sga_pct_rev a
                                - Assumptions.da_pct_rev a)%Q)%num
    /\ l_interest l = (Debt b0 * Assumptions.interest_pct_debt a)%num
    /\ l_taxes l = max 0%Q ((l_ebit l - l_interest l) * Assumptions.tax_rate a)%num
    /\ l_ni l = (l_ebit l - l_interest l - l_taxes l)%num
    /\ EBIT i1 = l_ebit l
    /\ Net_Income i1 = l_ni l
    /\ Equity b1 = (Equity b0 + l_ni l)%num
    /\ Debt b1 = (Assumptions.target_debt_pct_assets a * Assets b0)%num
    /\ l_capex l = (Revenue i1 * Assumptions.capex_pct_rev a)%num
    /\ CFO c1 = l_ni l
    /\ CFI c1 = (- l_capex l)%num
    /\ CFF c1 = (Debt b1 - Debt b0)%num
    /\ dCash c1 = nansum [CFO c1; CFI c1; CFF c1]
    /\ Cash b1 = (Cash b0 + dCash c1)%num
    /\ Assets b1 = (Cash b1 + Debt b1 + Equity b1)%num.

(** The cells of row [z] that a later pass reads hold numbers. *)
Definition populated (s : State) (z : Z) : Prop :=
  is_Some (Revenue (loc (IS s) z))
  /\ is_Some (Cash (loc (BS s) z))
  /\ is_Some (Debt (loc (BS s) z))
  /\ is_Some (Equity (loc (BS s) z))
  /\ is_Some (Assets (loc (BS s) z)).

(** ** Documents and sort keys *)

(** The document has the list [items] under
    [facts / "us-gaap" / tag / "units" / "USD"]. *)
Definition reported_usd (f : CompanyFacts) (tag : string) (items : list Fact) : Prop :=
  exists (taxonomies : gmap string (gmap string Concept))
         (reported : gmap string Concept) (c : Concept) (u : gmap string (list Fact)),
    facts f = Some taxonomies
    /\ taxonomies !! "us-gaap"%string = Some reported
    /\ reported !! tag = Some c
    /\ units c = Some u
    /\ u !! "USD"%string = Some items.

(** The annual USD records of a concept, in document order. *)
Definition annual_records (f : CompanyFacts) (tag : string) : list Fact :=
  match usd_items f tag with
  | Some items => List.filter is_annual items
  | None => []
  end.



(** A filing without revenue whose one record, for total assets, has a fiscal
    year but no value. *)
Definition valueless_assets : CompanyFacts :=
  document
    [ ("Assets"%string,
       [ {| fp := Some "FY"%string; end_ := Some "2023-12-31"%string;
            filed := Some "2024-02-01"%string; fy := Some 2023; val := None |} ]) ].

(** A filing with total assets 50, cash 10, total liabilities 20, payables 4 and
    equity reported as zero. *)
Definition filing_2023 : CompanyFacts :=
  document
    [ ("Revenues", [annual_fact "2023-12-31" "2024-02-01" 2023 100]);
      ("Assets", [annual_fact "2023-12-31" "2024-02-01" 2023 50]);
      ("Liabilities", [annual_fact "2023-12-31" "2024-02-01" 2023 20]);
      ("CashAndCashEquivalentsAtCarryingValue",
         [annual_fact "2023-12-31" "2024-02-01" 2023 10]);
      ("AccountsPayableCurrent", [annual_fact "2023-12-31" "2024-02-01" 2023 4]);
      ("StockholdersEquity", [annual_fact "2023-12-31" "2024-02-01" 2023 0]) ]%string.

(** [a < b] on pairs of strings, as a proposition. *)
Definition key_lt (a b : string * string) : Prop :=
  String_as_OT.lt (fst a) (fst b)
  \/ (fst a = fst b /\ String_as_OT.lt (snd a) (snd b)).

(** [a <= b]: not [b < a]. *)
Definition key_le (a b : string * string) : Prop := key_ltb b a = false.

(** Lists in which no record has a greater key than a later one. *)
Definition ascending (l : list Fact) : Prop :=
  StronglySorted (fun u v => key_le (key u) (key v)) l.

(** Scanning the records in document order while keeping the greatest key seen,
    a later record winning a tie. *)
Definition later_wins (m x : Fact) : Fact :=
  if key_ltb (key x) (key m) then m else x.

(** ** Inputs of the forecast *)

(** The fields of the two records that [forecast] reads agree. *)
Definition same_inputs (b b' : BaseYear.t) (a a' : Assumptions.t) : Prop :=
  BaseYear.year b = BaseYear.year b'
  /\ BaseYear.revenue b = BaseYear.revenue b'
  /\ BaseYear.net_income b = BaseYear.net_income b'
  /\ BaseYear.cash b = BaseYear.cash b'
  /\ BaseYear.long_term_debt b = BaseYear.long_term_debt b'
  /\ BaseYear.common_equity b = BaseYear.common_equity b'
  /\ BaseYear.ppe_net b = BaseYear.ppe_net b'
  /\ BaseYear.other_current_assets b = BaseYear.other_current_assets b'
  /\ BaseYear.other_noncurrent_assets b = BaseYear.other_noncurrent_assets b'
  /\ Assumptions.years a = Assumptions.years a'
  /\ Assumptions.revenue_growth a = Assumptions.revenue_growth a'
  /\ Assumptions.cogs_pct_rev a = Assumptions.cogs_pct_rev a'
  /\ Assumptions.sga_pct_rev a = Assumptions.sga_pct_rev a'
  /\ Assumptions.da_pct_rev a = Assumptions.da_pct_rev a'
  /\ Assumptions.interest_pct_debt a = Assumptions.interest_pct_debt a'
  /\ Assumptions.tax_rate a = Assumptions.tax_rate a'
  /\ Assumptions.capex_pct_rev a = Assumptions.capex_pct_rev a'
  /\ Assumptions.target_debt_pct_assets a = Assumptions.target_debt_pct_assets a'.

(** The assumptions other than the horizon agree. *)
Definition same_rates (a a' : Assumptions.t) : Prop :=
  Assumptions.revenue_growth a = Assumptions.revenue_growth a'
  /\ Assumptions.cogs_pct_rev a = Assumptions.cogs_pct_rev a'
  /\ Assumptions.sga_pct_rev a = Assumptions.sga_pct_rev a'
  /\ Assumptions.da_pct_rev a = Assumptions.da_pct_rev a'
  /\ Assumptions.interest_pct_debt a = Assumptions.interest_pct_debt a'
  /\ Assumptions.tax_rate a = Assumptions.tax_rate a'
  /\ Assumptions.capex_pct_rev a = Assumptions.capex_pct_rev a'
  /\ Assumptions.target_debt_pct_assets a = Assumptions.target_debt_pct_assets a'.

(** The scenario of the specification with the fields that [forecast] does not
    read filled in. *)
Definition base_2023_detailed : BaseYear.t :=
  {| BaseYear.year := 2023; BaseYear.revenue := 100; BaseYear.cogs := 50;
     BaseYear.sga := 20; BaseYear.da := 5; BaseYear.interest := 2;
     BaseYear.tax_rate := 0.35; BaseYear.net_income := 10; BaseYear.cash := 20;
     BaseYear.ar := 12; BaseYear.inventory := 8; BaseYear.other_current_assets := 0;
     BaseYear.ppe_net := 0; BaseYear.other_noncurrent_assets := 0; BaseYear.ap := 9;
     BaseYear.accrued_liabilities := 3; BaseYear.other_current_liabilities := 1;
     BaseYear.long_term_debt := 30; BaseYear.other_noncurrent_liabilities := 1;
     BaseYear.common_equity := 50 |}.

Definition assumptions_1y_detailed : Assumptions.t :=
  {| Assumptions.years := 1; Assumptions.revenue_growth := 0.10;
     Assumptions.cogs_pct_rev := 0.5; Assumptions.sga_pct_rev := 0.2;
     Assumptions.da_pct_rev := 0.05; Assumptions.interest_pct_debt := 0.05;
     Assumptions.tax_rate := 0.21; Assumptions.ar_pct_rev := 0.10;
     Assumptions.inv_pct_rev := 0.05; Assumptions.ap_pct_rev := 0.08;
     Assumptions.accrued_pct_rev := 0.04; Assumptions.capex_pct_rev := 0.03;
     Assumptions.target_debt_pct_assets := 0.10 |}.

(** The base year with every amount multiplied by [c]: the same company in
    another unit of account. *)
Definition rescale (c : Q) (b : BaseYear.t) : BaseYear.t :=
  {| BaseYear.year := BaseYear.year b;
     BaseYear.revenue := c * BaseYear.revenue b;
     BaseYear.cogs := c * BaseYear.cogs b;
     BaseYear.sga := c * BaseYear.sga b;
     BaseYear.da := c * BaseYear.da b;
     BaseYear.interest := c * BaseYear.interest b;
     BaseYear.tax_rate := BaseYear.tax_rate b;
     BaseYear.net_income := c * BaseYear.net_income b;
     BaseYear.cash := c * BaseYear.cash b;
     BaseYear.ar := c * BaseYear.ar b;
     BaseYear.inventory := c * BaseYear.inventory b;
     BaseYear.other_current_assets := c * BaseYear.other_current_assets b;
     BaseYear.ppe_net := c * BaseYear.ppe_net b;
     BaseYear.other_noncurrent_assets := c * BaseYear.other_noncurrent_assets b;
     BaseYear.ap := c * BaseYear.ap b;
     BaseYear.accrued_liabilities := c * BaseYear.accrued_liabilities b;
     BaseYear.other_current_liabilities := c * BaseYear.other_current_liabilities b;
     BaseYear.long_term_debt := c * BaseYear.long_term_debt b;
     BaseYear.other_noncurrent_liabilities := c * BaseYear.other_noncurrent_liabilities b;
     BaseYear.common_equity := c * BaseYear.common_equity b |}%Q.

(** Cell [x'] is [c] times cell [x]; NaN goes with NaN. *)
Definition scaled (c : Q) (x x' : num) : Prop :=
  match x, x' with
  | Some v, Some v' => (v' == c * v)%Q
  | None, None => True
  | _, _ => False
  end.

Definition scaled_IS (c : Q) (r r' : IS_row) : Prop :=
  scaled c (Revenue r) (Revenue r') /\ scaled c (EBIT r) (EBIT r')
  /\ scaled c (Net_Income r) (Net_Income r').

Definition scaled_BS (c : Q) (r r' : BS_row) : Prop :=
  scaled c (Cash r) (Cash r') /\ scaled c (Debt r) (Debt r')
  /\ scaled c (Equity r) (Equity r') /\ scaled c (Assets r) (Assets r').

Definition scaled_CF (c : Q) (r r' : CF_row) : Prop :=
  scaled c (CFO r) (CFO r') /\ scaled c (CFI r) (CFI r')
  /\ scaled c (CFF r) (CFF r') /\ scaled c (dCash r) (dCash r').

(** ** Filings *)

(** The five concepts behind the asset side of the base year. *)
Definition asset_concepts : list string :=
  [ "Assets"; "CashAndCashEquivalentsAtCarryingValue"; "AccountsReceivableNetCurrent";
    "InventoryNet"; "PropertyPlantAndEquipmentNet" ]%string.

(** A filing that reports revenue only. *)
Definition revenue_only : CompanyFacts :=
  document [ ("Revenues", [annual_fact "2023-12-31" "2024-02-01" 2023 100]) ]%string.

(** [filing_2023] with its equity reported as 26 and its revenue preceded by
    that of the year before. *)
Definition filing_2023_restated : CompanyFacts :=
  document
    [ ("Revenues", [annual_fact "2022-12-31" "2023-02-01" 2022 90;
                    annual_fact "2023-12-31" "2024-02-01" 2023 100]);
      ("Assets", [annual_fact "2023-12-31" "2024-02-01" 2023 50]);
      ("Liabilities", [annual_fact "2023-12-31" "2024-02-01" 2023 20]);
      ("CashAndCashEquivalentsAtCarryingValue",
         [annual_fact "2023-12-31" "2024-02-01" 2023 10]);
      ("AccountsPayableCurrent", [annual_fact "2023-12-31" "2024-02-01" 2023 4]);
      ("StockholdersEquity", [annual_fact "2023-12-31" "2024-02-01" 2023 26]) ]%string.

(** [filing_2023] with a first-quarter revenue record of the next year and a
    concept that the normalizer does not look up. *)
Definition filing_2023_verbose : CompanyFacts :=
  document
    [ ("Revenues", [annual_fact "2023-12-31" "2024-02-01" 2023 100;
                    {| fp := Some "Q1"; end_ := Some "2024-03-31";
                       filed := Some "2024-05-01"; fy := Some 2024; val := Some 30%Q |}]);
      ("Assets", [annual_fact "2023-12-31" "2024-02-01" 2023 50]);
      ("Liabilities", [annual_fact "2023-12-31" "2024-02-01" 2023 20]);
      ("CashAndCashEquivalentsAtCarryingValue",
         [annual_fact "2023-12-31" "2024-02-01" 2023 10]);
      ("AccountsPayableCurrent", [annual_fact "2023-12-31" "2024-02-01" 2023 4]);
      ("StockholdersEquity", [annual_fact "2023-12-31" "2024-02-01" 2023 0]);
      ("Goodwill", [annual_fact "2023-12-31" "2024-02-01" 2023 7]) ]%string.

(** The revenue of two years, in either order. *)
Definition revenue_2022 : Fact := annual_fact "2022-12-31" "2023-02-01" 2022 90.
Definition revenue_2023 : Fact := annual_fact "2023-12-31" "2024-02-01" 2023 100.

(** ** Text *)

(** A character is one of "0" ... "9". *)
Definition is_digit (c : ascii) : Prop := is_Some (digit c).

(** Every character is whitespace. *)
Definition whitespace (l : list ascii) : Prop := Forall (fun c => is_space c = true) l.

(** Every character is whitespace to [int] too. *)
Definition int_whitespace (l : list ascii) : Prop :=
  Forall (fun c => is_int_space c = true) l.

(** A line on which nothing was typed but blanks. *)
Definition blank_line (s : string) : Prop := whitespace (list_ascii_of_string s).

(** Text with no whitespace at either end. *)
Definition trimmed (l : list ascii) : Prop :=
  match l with
  | [] => True
  | c :: _ => is_space c = false /\ is_space (List.last l c) = false
  end.

(** The value of a string of digits read after [acc]. *)
Fixpoint uint_val (d : Decimal.uint) (acc : Z) : Z :=
  match d with
  | Decimal.Nil => acc
  | Decimal.D0 l => uint_val l (10 * acc + 0)
  | Decimal.D1 l => uint_val l (10 * acc + 1)
  | Decimal.D2 l => uint_val l (10 * acc + 2)
  | Decimal.D3 l => uint_val l (10 * acc + 3)
  | Decimal.D4 l => uint_val l (10 * acc + 4)
  | Decimal.D5 l => uint_val l (10 * acc + 5)
  | Decimal.D6 l => uint_val l (10 * acc + 6)
  | Decimal.D7 l => uint_val l (10 * acc + 7)
  | Decimal.D8 l => uint_val l (10 * acc + 8)
  | Decimal.D9 l => uint_val l (10 * acc + 9)
  end.

(** The entry carries the ticker [symbol], case aside. *)
Definition matches (symbol : string) (rec : Resolver.TickerRecord) : Prop :=
  Resolver.upper (default ""%string (Resolver.ticker rec)) = Resolver.upper symbol.

(** * Properties *)

(** ** Reading and writing rows *)

Section FrameFacts.
Context {R : Type} `{Blank R}.
Implicit Types (df : DataFrame R) (f : R -> R) (y z : Z).

Lemma loc_set_loc_eq df y f : loc (set_loc df y f) y = f (loc df y).
Proof. unfold loc at 1, set_loc; simpl. by rewrite lookup_insert_eq. Qed.

Lemma loc_set_loc_ne df y z f : y <> z -> loc (set_loc df y f) z = loc df z.
Proof. intros Hne. unfold loc, set_loc; simpl. by rewrite lookup_insert_ne. Qed.

Lemma index_set_loc_in df y f : y ∈ index df -> index (set_loc df y f) = index df.
Proof. intros Hin. unfold set_loc; simpl. by rewrite decide_True. Qed.

Lemma rows_create labels z :
  rows (create (R:=R) labels) !! z = if decide (z ∈ labels) then Some blank else None.
Proof.
  unfold create. cbn [rows]. induction labels as [|l labels IH].
  - cbn [map list_to_map foldr]. rewrite lookup_empty.
    destruct (decide (z ∈ [])) as [Hin|]; [|done]. by apply not_elem_of_nil in Hin.
  - cbn [map list_to_map foldr uncurry fst snd].
    destruct (decide (z ∈ l :: labels)) as [Hin|Hnin].
    + destruct (decide (l = z)) as [->|Hne]; [by rewrite lookup_insert_eq|].
      rewrite lookup_insert_ne by done. cbn [map list_to_map foldr] in IH. rewrite IH.
      apply elem_of_cons in Hin as [->|Hin]; [done|]. by rewrite decide_True.
    + rewrite elem_of_cons in Hnin.
      rewrite lookup_insert_ne by naive_solver.
      cbn [map list_to_map foldr] in IH. rewrite IH. rewrite decide_False; naive_solver.
Qed.

Lemma loc_create labels z : loc (create (R:=R) labels) z = blank.
Proof. unfold loc. rewrite rows_create. by case_decide. Qed.

Lemma loc_map_rows (g : R -> R) df z :
  g blank = blank -> loc (map_rows g df) z = g (loc df z).
Proof.
  intros Hg. unfold loc, map_rows; simpl. rewrite lookup_fmap.
  by destruct (rows df !! z).
Qed.

End FrameFacts.

(** ** The loop of [forecast] *)

Section LoopFacts.
Variable b : BaseYear.t.
Variable a : Assumptions.t.

Local Abbreviation Y0 := (BaseYear.year b).
Local Abbreviation n := (Z.to_nat (Assumptions.years a)).
Local Abbreviation nth_year := (fun i : nat => Y0 + Z.of_nat i).

Lemma years_seq : years b a = map nth_year (seq 0 (S n)).
Proof.
  unfold years, range. rewrite List.map_map. cbn [seq map app].
  replace (Y0 + Z.of_nat 0) with Y0 by lia. f_equal.
  replace (Z.to_nat (Assumptions.years a + 1 - 1)) with n by lia.
  rewrite <- seq_shift, List.map_map. apply map_ext. intros i. lia.
Qed.

Lemma tail_years : tail (years b a) = map nth_year (seq 1 n).
Proof. by rewrite years_seq. Qed.

Lemma elem_of_years y : y ∈ years b a <-> exists i : nat, (i <= n)%nat /\ y = nth_year i.
Proof.
  rewrite years_seq, list_elem_of_In, in_map_iff. split.
  - intros (i & <- & Hi). apply in_seq in Hi. exists i. split; [lia|done].
  - intros (i & Hi & ->). exists i. split; [done|]. apply in_seq. lia.
Qed.

Lemma elem_of_tail_years y :
  y ∈ tail (years b a) <-> exists i : nat, (1 <= i <= n)%nat /\ y = nth_year i.
Proof.
  rewrite tail_years, list_elem_of_In, in_map_iff. split.
  - intros (i & <- & Hi). apply in_seq in Hi. exists i. split; [lia|done].
  - intros (i & Hi & ->). exists i. split; [done|]. apply in_seq. lia.
Qed.

(** Every label the loop reads, [y - 1] for [y] in [years[1:]], is in the index:
    no [.loc] of [forecast] raises KeyError. *)
Lemma prior_year_in_index y : y ∈ tail (years b a) -> y - 1 ∈ years b a.
Proof.
  rewrite elem_of_tail_years, elem_of_years. intros (i & Hi & ->).
  exists (i - 1)%nat. split; lia.
Qed.

Lemma after_0 : after b a 0 = seed b a.
Proof. reflexivity. Qed.

Lemma after_S k : after b a (S k) = body a (after b a k) (nth_year (S k)).
Proof.
  unfold after. rewrite seq_S, map_app, fold_left_app. reflexivity.
Qed.

Lemma run_after : run b a = after b a n.
Proof. unfold run, after. by rewrite tail_years. Qed.

End LoopFacts.

(** What one pass writes, and what it leaves alone. *)

Ltac loc_simpl :=
  repeat first
    [ rewrite loc_set_loc_eq
    | rewrite loc_set_loc_ne by lia ].

Lemma body_IS_other a s y z : y <> z -> loc (IS (body a s y)) z = loc (IS s) z.
Proof. intros Hne. unfold body. cbn [IS]. by loc_simpl. Qed.

Lemma body_BS_other a s y z : y <> z -> loc (BS (body a s y)) z = loc (BS s) z.
Proof. intros Hne. unfold body. cbn [BS]. by loc_simpl. Qed.

Lemma body_CF_other a s y z : y <> z -> loc (CF (body a s y)) z = loc (CF s) z.
Proof. intros Hne. unfold body. cbn [CF]. by loc_simpl. Qed.

Lemma body_locals_other a s y z : y <> z -> locals (body a s y) !! z = locals s !! z.
Proof. intros Hne. unfold body. cbn [locals]. by rewrite lookup_insert_ne. Qed.

Lemma body_recurrence a s y : recurrence a (body a s y) y.
Proof.
  unfold recurrence, body. cbn [IS BS CF locals].
  rewrite lookup_insert_eq. eexists. split; [reflexivity|].
  loc_simpl. cbn. repeat split.
Qed.

(** ** Arithmetic of cells that hold numbers *)

Lemma max_Some (x y : Q) : max (Some x) (Some y) = Some (maxQ x y).
Proof. unfold max, maxQ, gt. by destruct (Qgtb y x). Qed.

(** The builtin agrees with the maximum of the standard library. *)
Lemma maxQ_Qmax (x y : Q) : maxQ x y = Qmax x y.
Proof.
  unfold maxQ, Qgtb, Qle_bool, Qmax, GenericMinMax.gmax, Qcompare.
  destruct (Z.compare_spec (Qnum x * QDen y) (Qnum y * QDen x)) as [Heq|Hlt|Hgt];
    destruct (Z.leb_spec (Qnum y * QDen x) (Qnum x * QDen y)); simpl; try reflexivity; lia.
Qed.

Lemma maxQ_lower (x y : Q) : (x <= maxQ x y)%Q.
Proof. rewrite maxQ_Qmax. apply Q.le_max_l. Qed.

(** ** Rows of the seeded frames *)

Section SeedFacts.
Variable b : BaseYear.t.
Variable a : Assumptions.t.

Local Abbreviation Y0 := (BaseYear.year b).

Lemma seed_IS_base : loc (IS (seed b a)) Y0 = seeded_IS b.
Proof. unfold seed. cbn [IS]. rewrite loc_set_loc_eq, loc_create. reflexivity. Qed.

Lemma seed_BS_base : loc (BS (seed b a)) Y0 = seeded_BS b.
Proof. unfold seed. cbn [BS]. rewrite !loc_set_loc_eq, loc_create. reflexivity. Qed.

Lemma seed_CF z : loc (CF (seed b a)) z = blank.
Proof. unfold seed. cbn [CF]. apply loc_create. Qed.

Lemma base_in_years : Y0 ∈ years b a.
Proof. unfold years. apply list_elem_of_here. Qed.

Lemma seed_index :
  index (IS (seed b a)) = years b a
  /\ index (BS (seed b a)) = years b a
  /\ index (CF (seed b a)) = years b a.
Proof.
  pose proof base_in_years as Hin.
  unfold seed. cbn [IS BS CF]. repeat split.
  - by rewrite index_set_loc_in.
  - assert (index (set_loc (create (R:=BS_row) (years b a)) Y0
              (fun r => set_Equity (BaseYear.common_equity b)
                          (set_Debt (BaseYear.long_term_debt b)
                             (set_Cash (BaseYear.cash b) r)))) = years b a) as Hi
      by (by rewrite index_set_loc_in).
    rewrite index_set_loc_in; [done|]. by rewrite Hi.
Qed.

End SeedFacts.

Section KeyedFacts.
Context {R : Type} `{Blank R}.

Lemma keyed_create labels : keyed (create (R:=R) labels).
Proof.
  intros z. rewrite rows_create. cbn [index create].
  destruct (decide (z ∈ labels)); split; intros Hz; try done; try by eexists.
Qed.

Lemma keyed_set_loc (df : DataFrame R) y f : keyed df -> keyed (set_loc df y f).
Proof.
  intros Hk z. unfold set_loc; cbn [rows index].
  destruct (decide (y = z)) as [->|Hne].
  - rewrite lookup_insert_eq. split; [intros _|by eauto].
    destruct (decide (z ∈ index df)); [done|]. apply elem_of_app. right. apply list_elem_of_here.
  - rewrite lookup_insert_ne by done. rewrite (Hk z).
    destruct (decide (y ∈ index df)); [done|].
    rewrite elem_of_app, list_elem_of_singleton. split; [by left|].
    intros [Hz| ->]; [done|]. by destruct Hne.
Qed.

Lemma keyed_row (df : DataFrame R) (z : Z) :
  keyed df -> z ∈ index df -> rows df !! z = Some (loc df z).
Proof. intros Hk Hz. apply Hk in Hz as [r Hr]. unfold loc. by rewrite Hr. Qed.

Lemma keyed_size (df : DataFrame R) :
  keyed df -> NoDup (index df) -> size (rows df) = length (index df).
Proof.
  intros Hk Hnd. rewrite <- size_dom.
  assert (dom (rows df) = list_to_set (index df)) as ->.
  { apply set_eq. intros z. rewrite elem_of_dom, elem_of_list_to_set. apply Hk. }
  by apply size_list_to_set.
Qed.

Lemma keyed_map_rows (g : R -> R) (df : DataFrame R) : keyed df -> keyed (map_rows g df).
Proof.
  intros Hk z. unfold map_rows; cbn [rows index]. rewrite lookup_fmap, <- (Hk z).
  apply fmap_is_Some.
Qed.

End KeyedFacts.

(** ** Invariants of the loop *)

(** With numbers in row [y - 1], the pass for [y] writes these numbers. *)
Lemma recurrence_numbers a s y :
  recurrence a s y -> populated s (y - 1) ->
  exists revenue0 cash0 debt0 equity0 assets0 : Q,
    Revenue (loc (IS s) (y - 1)) = Some revenue0
    /\ Cash (loc (BS s) (y - 1)) = Some cash0
    /\ Debt (loc (BS s) (y - 1)) = Some debt0
    /\ Equity (loc (BS s) (y - 1)) = Some equity0
    /\ Assets (loc (BS s) (y - 1)) = Some assets0
    /\ let revenue := (revenue0 * (1 + Assumptions.revenue_growth a))%Q in
       let ebit := (revenue * (1 - Assumptions.cogs_pct_rev a - Assumptions.sga_pct_rev a
                               - Assumptions.da_pct_rev a))%Q in
       let interest := (debt0 * Assumptions.interest_pct_debt a)%Q in
       let taxes := maxQ 0 ((ebit - interest) * Assumptions.tax_rate a)%Q in
       let ni := (ebit - interest - taxes)%Q in
       let equity := (equity0 + ni)%Q in
       let debt := (Assumptions.target_debt_pct_assets a * assets0)%Q in
       let capex := (revenue * Assumptions.capex_pct_rev a)%Q in
       let cfo := ni in
       let cfi := (- capex)%Q in
       let cff := (debt - debt0)%Q in
       let dcash := (cfo + cfi + cff)%Q in
       let cash := (cash0 + dcash)%Q in
       loc (IS s) y = {| Revenue := Some revenue; EBIT := Some ebit; Net_Income := Some ni |}
       /\ loc (BS s) y = {| Cash := Some cash; Debt := Some debt; Equity := Some equity;
                            Assets := Some (cash + debt + equity)%Q |}
       /\ loc (CF s) y = {| CFO := Some cfo; CFI := Some cfi; CFF := Some cff;
                            dCash := Some dcash |}
       /\ locals s !! y = Some {| l_ebit := Some ebit; l_interest := Some interest;
                                  l_taxes := Some taxes; l_ni := Some ni;
                                  l_capex := Some capex |}.
Proof.
  intros (l & Hl & HRev & Hebit & Hint & Htax & Hni & HEBIT & HNI & HEq & HDebt & Hcapex
            & HCFO & HCFI & HCFF & HdCash & HCash & HAssets)
         ([r0 Hr0] & [c0 Hc0] & [d0 Hd0] & [e0 He0] & [a0 Ha0]).
  exists r0, c0, d0, e0, a0. repeat (split; [assumption|]).
  rewrite Hr0 in HRev. rewrite Hd0 in Hint, HCFF. rewrite He0 in HEq.
  rewrite Ha0 in HDebt. rewrite Hc0 in HCash.
  cbn in HRev, Hint, HDebt.
  rewrite HRev in Hebit, Hcapex. cbn in Hebit, Hcapex.
  rewrite Hebit, Hint in Htax. cbn [Py.sub Py.mul lift2 fl] in Htax. rewrite max_Some in Htax.
  rewrite Hebit, Hint, Htax in Hni. cbn in Hni.
  rewrite Hni in HEq, HCFO, HNI. cbn in HEq. rewrite Hebit in HEBIT.
  rewrite Hcapex in HCFI. cbn in HCFI.
  rewrite HDebt in HCFF. cbn in HCFF.
  rewrite HCFO, HCFI, HCFF in HdCash. cbn in HdCash.
  rewrite HdCash in HCash. cbn in HCash.
  rewrite HCash, HDebt, HEq in HAssets. cbn in HAssets.
  cbv zeta. repeat split.
  - destruct (loc (IS s) y); cbn in *; congruence.
  - destruct (loc (BS s) y); cbn in *; congruence.
  - destruct (loc (CF s) y); cbn in *; congruence.
  - rewrite Hl. f_equal. destruct l; cbn in *; congruence.
Qed.

Lemma recurrence_populated a s y :
  recurrence a s y -> populated s (y - 1) -> populated s y.
Proof.
  intros Hrec Hpop.
  destruct (recurrence_numbers a s y Hrec Hpop)
    as (r0 & c0 & d0 & e0 & a0 & _ & _ & _ & _ & _ & HIS & HBS & _).
  cbv zeta in HIS, HBS. unfold populated. rewrite HIS, HBS. cbn. eauto 10.
Qed.

Ltac index_simpl :=
  first [ rewrite index_set_loc_in; [index_simpl | index_simpl; assumption] | idtac ].

Lemma body_index a s y :
  y ∈ index (IS s) -> y ∈ index (BS s) -> y ∈ index (CF s) ->
  index (IS (body a s y)) = index (IS s)
  /\ index (BS (body a s y)) = index (BS s)
  /\ index (CF (body a s y)) = index (CF s).
Proof.
  intros HI HB HC. unfold body. cbn [IS BS CF]. repeat split; by index_simpl.
Qed.

Lemma body_keyed a s y :
  keyed (IS s) /\ keyed (BS s) /\ keyed (CF s) ->
  keyed (IS (body a s y)) /\ keyed (BS (body a s y)) /\ keyed (CF (body a s y)).
Proof.
  intros (HI & HB & HC). unfold body. cbn [IS BS CF].
  repeat split; repeat apply keyed_set_loc; assumption.
Qed.

Lemma seed_keyed b a :
  keyed (IS (seed b a)) /\ keyed (BS (seed b a)) /\ keyed (CF (seed b a)).
Proof.
  unfold seed. cbn [IS BS CF].
  repeat split; repeat apply keyed_set_loc; apply keyed_create.
Qed.

Section LoopInvariants.
Variable b : BaseYear.t.
Variable a : Assumptions.t.

Local Abbreviation Y0 := (BaseYear.year b).
Local Abbreviation n := (Z.to_nat (Assumptions.years a)).
Local Abbreviation nth_year := (fun i : nat => Y0 + Z.of_nat i).

Lemma after_index k :
  (k <= n)%nat ->
  index (IS (after b a k)) = years b a
  /\ index (BS (after b a k)) = years b a
  /\ index (CF (after b a k)) = years b a.
Proof.
  induction k as [|k IH]; intros Hk.
  - rewrite after_0. apply seed_index.
  - destruct IH as (HI & HB & HC); [lia|].
    assert (nth_year (S k) ∈ years b a) as Hin
      by (apply elem_of_years; exists (S k); split; [lia|done]).
    rewrite after_S.
    destruct (body_index a (after b a k) (nth_year (S k))) as (HI' & HB' & HC');
      [by rewrite HI | by rewrite HB | by rewrite HC |].
    by rewrite HI', HB', HC'.
Qed.

Lemma after_keyed k :
  keyed (IS (after b a k)) /\ keyed (BS (after b a k)) /\ keyed (CF (after b a k)).
Proof.
  induction k as [|k IH].
  - rewrite after_0. apply seed_keyed.
  - rewrite after_S. by apply body_keyed.
Qed.

(** A finished row is not touched again. *)
Lemma after_stable j k :
  (j <= k)%nat ->
  loc (IS (after b a k)) (nth_year j) = loc (IS (after b a j)) (nth_year j)
  /\ loc (BS (after b a k)) (nth_year j) = loc (BS (after b a j)) (nth_year j)
  /\ loc (CF (after b a k)) (nth_year j) = loc (CF (after b a j)) (nth_year j)
  /\ locals (after b a k) !! nth_year j = locals (after b a j) !! nth_year j.
Proof.
  induction k as [|k IH]; intros Hjk.
  - by replace j with 0%nat by lia.
  - destruct (decide (j = S k)) as [->|Hne]; [done|].
    destruct IH as (HI & HB & HC & HL); [lia|].
    rewrite after_S.
    rewrite body_IS_other, body_BS_other, body_CF_other, body_locals_other by lia.
    done.
Qed.

Lemma after_recurrence j k :
  (1 <= j <= k)%nat -> recurrence a (after b a k) (nth_year j).
Proof.
  intros Hjk.
  assert (recurrence a (after b a j) (nth_year j)) as Hrec.
  { destruct j as [|j]; [lia|]. rewrite after_S. apply body_recurrence. }
  destruct (after_stable j k) as (HI & HB & HC & HL); [lia|].
  destruct (after_stable (j - 1)%nat k) as (HI0 & HB0 & _); [lia|].
  destruct (after_stable (j - 1)%nat j) as (HI1 & HB1 & _); [lia|].
  replace (nth_year (j - 1)%nat) with (nth_year j - 1) in HI0, HB0, HI1, HB1 by lia.
  unfold recurrence in *. cbv zeta in *.
  rewrite HI, HB, HC, HL, HI0, HB0, <- HI1, <- HB1. exact Hrec.
Qed.

Lemma after_populated j k : (j <= k)%nat -> populated (after b a k) (nth_year j).
Proof.
  induction j as [|j IH]; intros Hjk.
  - destruct (after_stable 0 k) as (HI & HB & _); [lia|].
    unfold populated. rewrite HI, HB, after_0.
    replace (nth_year 0%nat) with Y0 by lia.
    rewrite seed_IS_base, seed_BS_base. cbn. eauto 10.
  - apply (recurrence_populated a).
    + apply after_recurrence. lia.
    + replace (nth_year (S j) - 1) with (nth_year j) by lia. apply IH. lia.
Qed.

End LoopInvariants.

(** ** The returned tables *)

(** The frames of [forecast] keep the dtype they are created with. *)
Lemma body_dtypes a s y :
  dtypes (IS (body a s y)) = dtypes (IS s)
  /\ dtypes (BS (body a s y)) = dtypes (BS s)
  /\ dtypes (CF (body a s y)) = dtypes (CF s).
Proof. done. Qed.

Lemma run_dtypes b a :
  dtypes (IS (run b a)) = object
  /\ dtypes (BS (run b a)) = object
  /\ dtypes (CF (run b a)) = object.
Proof.
  rewrite run_after. induction (Z.to_nat (Assumptions.years a)) as [|k IH]; [done|].
  rewrite after_S. destruct (body_dtypes a (after b a k)
    (BaseYear.year b + Z.of_nat (S k))) as (-> & -> & ->). exact IH.
Qed.

(** So the final [round(2)] hands back the frames that the loop has left. *)
Lemma forecast_tables b a :
  tIS (forecast b a) = IS (run b a)
  /\ tBS (forecast b a) = BS (run b a)
  /\ tCF (forecast b a) = CF (run b a).
Proof.
  unfold forecast, Frame.round. cbn [tIS tBS tCF].
  by destruct (run_dtypes b a) as (-> & -> & ->).
Qed.

Lemma forecast_index b a :
  index (tIS (forecast b a)) = years b a
  /\ index (tBS (forecast b a)) = years b a
  /\ index (tCF (forecast b a)) = years b a.
Proof.
  destruct (forecast_tables b a) as (-> & -> & ->). rewrite run_after.
  apply after_index. lia.
Qed.

Lemma forecast_keyed b a :
  keyed (tIS (forecast b a)) /\ keyed (tBS (forecast b a)) /\ keyed (tCF (forecast b a)).
Proof.
  destruct (forecast_tables b a) as (-> & -> & ->). rewrite run_after.
  apply after_keyed.
Qed.

(** The projected years of the output, as positions. *)
Lemma projected_year b a y :
  In y (tail (index (tIS (forecast b a)))) ->
  exists j : nat,
    (1 <= j <= Z.to_nat (Assumptions.years a))%nat /\ y = BaseYear.year b + Z.of_nat j.
Proof.
  destruct (forecast_index b a) as (-> & _). rewrite <- list_elem_of_In.
  apply elem_of_tail_years.
Qed.

Lemma run_recurrence b a y :
  In y (tail (index (tIS (forecast b a)))) ->
  recurrence a (run b a) y /\ populated (run b a) (y - 1).
Proof.
  intros (j & Hj & ->)%projected_year. rewrite run_after. split.
  - by apply after_recurrence.
  - replace (BaseYear.year b + Z.of_nat j - 1)
      with (BaseYear.year b + Z.of_nat (j - 1)%nat) by lia.
    apply after_populated. lia.
Qed.

Lemma run_base_rows b a :
  loc (IS (run b a)) (BaseYear.year b) = seeded_IS b
  /\ loc (BS (run b a)) (BaseYear.year b) = seeded_BS b
  /\ loc (CF (run b a)) (BaseYear.year b) = blank.
Proof.
  rewrite run_after.
  destruct (after_stable b a 0 (Z.to_nat (Assumptions.years a))) as (H1 & H2 & H3 & _);
    [lia|].
  replace (BaseYear.year b + Z.of_nat 0) with (BaseYear.year b) in H1, H2, H3 by lia.
  rewrite H1, H2, H3, after_0. by rewrite seed_IS_base, seed_BS_base, seed_CF.
Qed.

(** Rounding does round the frames whose columns are floats. *)
Lemma round_float64_frame :
  exists v : Q,
    Revenue (loc (Frame.round (round_IS 2)
                    {| index := [2023];
                       rows := {[ 2023 := seeded_IS (small_company 100.456) ]};
                       dtypes := float64 |}) 2023) = Some v
    /\ (v == 100.46)%Q.
Proof. eexists. split; vm_compute; reflexivity. Qed.

(** ** The recurrence *)

(** C1.  Whenever [years >= 1], every projected year [y] of the output has its
    prior year [y - 1] in the output too, the prior row holds numbers, and the
    rows for [y] that the loop leaves to the final [round(2)] are computed
    from the prior row and the assumptions by:
    Revenue = prior Revenue * (1 + revenue_growth);
    EBIT = Revenue * (1 - cogs_pct_rev - sga_pct_rev - da_pct_rev);
    interest = prior Debt * interest_pct_debt;
    taxes = max(0, (EBIT - interest) * tax_rate);
    Net Income = EBIT - interest - taxes;
    Equity = prior Equity + Net Income;
    Debt = target_debt_pct_assets * prior Assets;
    capex = Revenue * capex_pct_rev;
    CFO = Net Income; CFI = -capex; CFF = Debt - prior Debt;
    dCash = CFO + CFI + CFF; Cash = prior Cash + dCash.
    The returned tables are these frames passed through [round(2)]. *)
Theorem forecast_recurrence (b : BaseYear.t) (a : Assumptions.t) (y : Z) :
  1 <= Assumptions.years a ->
  In y (tail (index (tIS (forecast b a)))) ->
  let s := run b a in
  let y0 := y - 1 in
  In y0 (index (tIS (forecast b a)))
  /\ tIS (forecast b a) = Frame.round (round_IS 2) (IS s)
  /\ tBS (forecast b a) = Frame.round (round_BS 2) (BS s)
  /\ tCF (forecast b a) = Frame.round (round_CF 2) (CF s)
  /\ exists revenue0 cash0 debt0 equity0 assets0 : Q,
      Revenue (loc (IS s) y0) = Some revenue0
      /\ Cash (loc (BS s) y0) = Some cash0
      /\ Debt (loc (BS s) y0) = Some debt0
      /\ Equity (loc (BS s) y0) = Some equity0
      /\ Assets (loc (BS s) y0) = Some assets0
      /\ let revenue := (revenue0 * (1 + Assumptions.revenue_growth a))%Q in
         let ebit := (revenue * (1 - Assumptions.cogs_pct_rev a - Assumptions.sga_pct_rev a
                                 - Assumptions.da_pct_rev a))%Q in
         let interest := (debt0 * Assumptions.interest_pct_debt a)%Q in
         let taxes := Qmax 0 ((ebit - interest) * Assumptions.tax_rate a)%Q in
         let ni := (ebit - interest - taxes)%Q in
         let equity := (equity0 + ni)%Q in
         let debt := (Assumptions.target_debt_pct_assets a * assets0)%Q in
         let capex := (revenue * Assumptions.capex_pct_rev a)%Q in
         let cfo := ni in
         let cfi := (- capex)%Q in
         let cff := (debt - debt0)%Q in
         let dcash := (cfo + cfi + cff)%Q in
         let cash := (cash0 + dcash)%Q in
         Revenue (loc (IS s) y) = Some revenue
         /\ EBIT (loc (IS s) y) = Some ebit
         /\ (exists l : Locals,
               locals s !! y = Some l
               /\ l_interest l = Some interest
               /\ l_taxes l = Some taxes
               /\ l_capex l = Some capex)
         /\ Net_Income (loc (IS s) y) = Some ni
         /\ Equity (loc (BS s) y) = Some equity
         /\ Debt (loc (BS s) y) = Some debt
         /\ CFO (loc (CF s) y) = Some cfo
         /\ CFI (loc (CF s) y) = Some cfi
         /\ CFF (loc (CF s) y) = Some cff
         /\ dCash (loc (CF s) y) = Some dcash
         /\ Cash (loc (BS s) y) = Some cash.
Proof.
  intros _ Hy s y0.
  destruct (run_recurrence b a y Hy) as (Hrec & Hpop).
  split.
  { destruct (forecast_index b a) as (Hidx & _). rewrite Hidx in Hy |- *.
    apply list_elem_of_In, prior_year_in_index, list_elem_of_In, Hy. }
  repeat (split; [reflexivity|]).
  destruct (recurrence_numbers a (run b a) y Hrec Hpop)
    as (r0 & c0 & d0 & e0 & a0 & Hr0 & Hc0 & Hd0 & He0 & Ha0 & HIS & HBS & HCF & HL).
  exists r0, c0, d0, e0, a0. repeat (split; [assumption|]).
  cbv zeta in HIS, HBS, HCF, HL |- *. subst s.
  rewrite HIS, HBS, HCF, HL. rewrite <- maxQ_Qmax. cbn.
  repeat split. eexists. split; [reflexivity|]. cbn. repeat split.
Qed.

Lemma forecast_recurrence_witness :
  1 <= Assumptions.years assumptions_1y
  /\ In 2024 (tail (index (tIS (forecast base_2023 assumptions_1y))))
  /\ In 2023 (index (tIS (forecast base_2023 assumptions_1y)))
  /\ Revenue (loc (IS (run base_2023 assumptions_1y)) 2024) = Some (100 * (1 + 0.10))%Q.
Proof.
  assert (1 <= Assumptions.years assumptions_1y) as H1 by (cbn; lia).
  assert (In 2024 (tail (index (tIS (forecast base_2023 assumptions_1y))))) as H2
    by (vm_compute; left; reflexivity).
  split; [exact H1|]. split; [exact H2|].
  destruct (forecast_recurrence base_2023 assumptions_1y 2024 H1 H2)
    as (Hin & _ & _ & _ & r0 & c0 & d0 & e0 & a0 & Hr0 & _ & _ & _ & _ & Hrev & _).
  split; [exact Hin|].
  cbv zeta in Hrev. rewrite Hrev. f_equal.
  assert (Some r0 = Some 100%Q) as Heq by (rewrite <- Hr0; vm_compute; reflexivity).
  by injection Heq as ->.
Defined.

(** ** Taxes *)

(** C4.  In every projected year the taxes that the loop computes are a number,
    that number is [max(0, (EBIT - interest) * tax_rate)], and it is never
    negative, whatever the sign of [EBIT - interest]. *)
Theorem taxes_never_negative (b : BaseYear.t) (a : Assumptions.t) (y : Z) :
  In y (tail (index (tIS (forecast b a)))) ->
  exists (l : Locals) (ebit interest taxes : Q),
    locals (run b a) !! y = Some l
    /\ l_ebit l = Some ebit
    /\ l_interest l = Some interest
    /\ l_taxes l = Some taxes
    /\ taxes = Qmax 0 ((ebit - interest) * Assumptions.tax_rate a)%Q
    /\ (0 <= taxes)%Q.
Proof.
  intros Hy. destruct (run_recurrence b a y Hy) as (Hrec & Hpop).
  destruct (recurrence_numbers a (run b a) y Hrec Hpop)
    as (r0 & c0 & d0 & e0 & a0 & _ & _ & _ & _ & _ & _ & _ & _ & HL).
  cbv zeta in HL. eexists _, _, _, _. split; [exact HL|]. cbn.
  repeat (split; [reflexivity|]). split; [apply maxQ_Qmax | apply maxQ_lower].
Qed.

Lemma taxes_never_negative_witness :
  In 2024 (tail (index (tIS (forecast base_2023 assumptions_1y))))
  /\ exists (l : Locals) (taxes : Q),
       locals (run base_2023 assumptions_1y) !! 2024 = Some l
       /\ l_taxes l = Some taxes /\ (0 <= taxes)%Q.
Proof.
  assert (In 2024 (tail (index (tIS (forecast base_2023 assumptions_1y))))) as H
    by (vm_compute; left; reflexivity).
  split; [exact H|].
  destruct (taxes_never_negative base_2023 assumptions_1y 2024 H)
    as (l & ebit & interest & taxes & Hl & _ & _ & Ht & _ & Hle).
  exists l, taxes. repeat split; assumption.
Defined.

(** ** Total assets *)

(** C3.  In every projected year the row of the returned balance sheet holds
    four numbers, and its Assets is its Cash plus its Debt plus its Equity,
    added in that order.  (It is the row that the loop has left.) *)
Theorem assets_identity (b : BaseYear.t) (a : Assumptions.t) (y : Z) :
  In y (tail (index (tBS (forecast b a)))) ->
  exists cash debt equity : Q,
    Cash (loc (tBS (forecast b a)) y) = Some cash
    /\ Debt (loc (tBS (forecast b a)) y) = Some debt
    /\ Equity (loc (tBS (forecast b a)) y) = Some equity
    /\ Assets (loc (tBS (forecast b a)) y) = Some (cash + debt + equity)%Q
    /\ loc (tBS (forecast b a)) y = loc (BS (run b a)) y.
Proof.
  intros Hy.
  destruct (forecast_index b a) as (HI & HB & _). rewrite HB, <- HI in Hy.
  destruct (forecast_tables b a) as (_ & -> & _).
  destruct (run_recurrence b a y Hy) as (Hrec & Hpop).
  destruct (recurrence_numbers a (run b a) y Hrec Hpop)
    as (r0 & c0 & d0 & e0 & a0 & _ & _ & _ & _ & _ & _ & HBS & _).
  cbv zeta in HBS. rewrite HBS. cbn. eexists _, _, _. repeat split.
Qed.

Lemma assets_identity_witness :
  In 2025 (tail (index (tBS (forecast (small_company 1000) (main_assumptions 2 0.06)))))
  /\ exists cash debt equity : Q,
       Cash (loc (tBS (forecast (small_company 1000) (main_assumptions 2 0.06))) 2025)
       = Some cash
       /\ Debt (loc (tBS (forecast (small_company 1000) (main_assumptions 2 0.06))) 2025)
          = Some debt
       /\ Equity (loc (tBS (forecast (small_company 1000) (main_assumptions 2 0.06))) 2025)
          = Some equity
       /\ Assets (loc (tBS (forecast (small_company 1000) (main_assumptions 2 0.06))) 2025)
          = Some (cash + debt + equity)%Q.
Proof.
  assert (In 2025 (tail (index (tBS (forecast (small_company 1000)
                                       (main_assumptions 2 0.06)))))) as H
    by (vm_compute; right; left; reflexivity).
  split; [exact H|].
  destruct (assets_identity (small_company 1000) (main_assumptions 2 0.06) 2025 H)
    as (cash & debt & equity & Hc & Hd & He & Ha & _).
  exists cash, debt, equity. repeat split; assumption.
Defined.

(** ** Rows and their keys *)

Lemma consecutive_sorted (y0 : Z) (start len : nat) :
  StronglySorted Z.lt (map (fun i : nat => y0 + Z.of_nat i) (seq start len)).
Proof.
  revert start. induction len as [|len IH]; intros start; cbn [seq map].
  - constructor.
  - constructor; [apply IH|].
    apply Forall_forall. intros z Hz.
    apply list_elem_of_In, in_map_iff in Hz as (i & <- & Hi).
    apply in_seq in Hi. lia.
Qed.

Lemma years_shape b a :
  Z.of_nat (length (years b a)) = Z.max 0 (Assumptions.years a) + 1
  /\ head (years b a) = Some (BaseYear.year b)
  /\ StronglySorted Z.lt (years b a).
Proof.
  rewrite years_seq. split; [|split].
  - rewrite length_map, length_seq. lia.
  - cbn [seq map head]. f_equal. lia.
  - apply consecutive_sorted.
Qed.

Lemma years_degenerate b a : Assumptions.years a < 1 -> years b a = [BaseYear.year b].
Proof.
  intros Hlt. rewrite years_seq.
  replace (Z.to_nat (Assumptions.years a)) with 0%nat by lia.
  cbn [seq map]. f_equal. lia.
Qed.

Lemma years_NoDup b a : NoDup (years b a).
Proof.
  rewrite years_seq.
  assert (Inj eq eq (fun i : nat => BaseYear.year b + Z.of_nat i)) as Hinj
    by (intros i j Hij; lia).
  apply (NoDup_fmap_2 _), NoDup_seq.
Qed.

Lemma forecast_sizes b a :
  size (rows (tIS (forecast b a))) = length (years b a)
  /\ size (rows (tBS (forecast b a))) = length (years b a)
  /\ size (rows (tCF (forecast b a))) = length (years b a).
Proof.
  destruct (forecast_index b a) as (HI & HB & HC).
  destruct (forecast_keyed b a) as (HkI & HkB & HkC).
  pose proof (years_NoDup b a) as Hnd.
  rewrite !keyed_size; rewrite ?HI, ?HB, ?HC; done.
Qed.

(** C2.  Each returned table has a row for exactly the labels of its index.
    With [years >= 1] each table has [years + 1] rows, and its index has
    [years + 1] labels, starts at the base year and is strictly increasing.
    With [years < 1] each table has one row, each index is the base year alone,
    and the row is the seeded one: revenue and net income; cash, long-term
    debt, common equity and the base-year assets.  The cells that are never
    seeded, EBIT and the four cash-flow cells, are NaN. *)
Theorem forecast_rows (b : BaseYear.t) (a : Assumptions.t) :
  let t := forecast b a in
  let Y0 := BaseYear.year b in
  (keyed (tIS t) /\ keyed (tBS t) /\ keyed (tCF t))
  /\ (1 <= Assumptions.years a ->
      Z.of_nat (size (rows (tIS t))) = Assumptions.years a + 1
      /\ Z.of_nat (size (rows (tBS t))) = Assumptions.years a + 1
      /\ Z.of_nat (size (rows (tCF t))) = Assumptions.years a + 1
      /\ forall idx : list Z,
           In idx [index (tIS t); index (tBS t); index (tCF t)] ->
           Z.of_nat (length idx) = Assumptions.years a + 1
           /\ head idx = Some Y0
           /\ StronglySorted Z.lt idx)
  /\ (Assumptions.years a < 1 ->
      size (rows (tIS t)) = 1%nat /\ size (rows (tBS t)) = 1%nat
      /\ size (rows (tCF t)) = 1%nat
      /\ index (tIS t) = [Y0] /\ index (tBS t) = [Y0] /\ index (tCF t) = [Y0]
      /\ rows (tIS t) !! Y0 =
           Some {| Revenue := Some (BaseYear.revenue b);
                   EBIT := nan;
                   Net_Income := Some (BaseYear.net_income b) |}
      /\ rows (tBS t) !! Y0 =
           Some {| Cash := Some (BaseYear.cash b);
                   Debt := Some (BaseYear.long_term_debt b);
                   Equity := Some (BaseYear.common_equity b);
                   Assets := Some (BaseYear.cash b + BaseYear.ppe_net b
                                   + BaseYear.other_current_assets b
                                   + BaseYear.other_noncurrent_assets b)%Q |}
      /\ rows (tCF t) !! Y0 =
           Some {| CFO := nan; CFI := nan; CFF := nan; dCash := nan |}).
Proof.
  intros t Y0. subst t Y0.
  destruct (forecast_index b a) as (HI & HB & HC).
  destruct (forecast_sizes b a) as (HsI & HsB & HsC).
  destruct (forecast_keyed b a) as (HkI & HkB & HkC).
  split; [done|]. split.
  - intros Hge. destruct (years_shape b a) as (Hlen & Hhd & Hsorted).
    rewrite HsI, HsB, HsC. repeat (split; [lia|]).
    intros idx Hidx.
    assert (idx = years b a) as ->.
    { cbn [In] in Hidx. destruct Hidx as [<-|[<-|[<-|[]]]]; assumption. }
    split; [lia|]. split; assumption.
  - intros Hlt. pose proof (base_in_years b a) as Hbase.
    rewrite !keyed_row by (by rewrite ?HI, ?HB, ?HC).
    rewrite HsI, HsB, HsC, HI, HB, HC, (years_degenerate b a Hlt).
    repeat (split; [reflexivity|]).
    destruct (forecast_tables b a) as (-> & -> & ->).
    destruct (run_base_rows b a) as (-> & -> & ->). repeat split.
Qed.

(** ** The cash-flow table *)

(** C8, as the code has it.  With [years >= 1] the cash-flow table has the same
    index as the other two tables, the base year included, and it does have a
    row for the base year; that row is all NaN.  Every projected row of the
    cash-flow table holds four numbers, and the base-year rows of the income
    statement and the balance sheet hold the seeded values: the base year's
    revenue and net income (EBIT is NaN), its cash, long-term debt and common
    equity, and for Assets cash + PP&E + other current + other non-current
    assets. *)
Theorem cash_flow_rows (b : BaseYear.t) (a : Assumptions.t) :
  1 <= Assumptions.years a ->
  let t := forecast b a in
  let Y0 := BaseYear.year b in
  index (tCF t) = index (tIS t)
  /\ index (tCF t) = index (tBS t)
  /\ In Y0 (index (tCF t))
  /\ rows (tCF t) !! Y0 = Some {| CFO := nan; CFI := nan; CFF := nan; dCash := nan |}
  /\ (forall y : Z,
        In y (tail (index (tCF t))) ->
        exists cfo cfi cff dcash : Q,
          rows (tCF t) !! y
          = Some {| CFO := Some cfo; CFI := Some cfi; CFF := Some cff;
                    dCash := Some dcash |})
  /\ rows (tIS t) !! Y0
     = Some {| Revenue := Some (BaseYear.revenue b);
               EBIT := nan;
               Net_Income := Some (BaseYear.net_income b) |}
  /\ rows (tBS t) !! Y0
     = Some {| Cash := Some (BaseYear.cash b);
               Debt := Some (BaseYear.long_term_debt b);
               Equity := Some (BaseYear.common_equity b);
               Assets := Some (BaseYear.cash b + BaseYear.ppe_net b
                               + BaseYear.other_current_assets b
                               + BaseYear.other_noncurrent_assets b)%Q |}.
Proof.
  intros _ t Y0. subst t Y0.
  destruct (forecast_index b a) as (HI & HB & HC).
  destruct (forecast_keyed b a) as (HkI & HkB & HkC).
  pose proof (base_in_years b a) as Hbase.
  rewrite HC, HI, HB. repeat (split; [reflexivity|]).
  split; [by apply list_elem_of_In|]. split; [|split; [|split]].
  - rewrite keyed_row by (by rewrite ?HC).
    destruct (forecast_tables b a) as (_ & _ & ->).
    by destruct (run_base_rows b a) as (_ & _ & ->).
  - intros y Hy.
    assert (y ∈ years b a) as Hin.
    { apply list_elem_of_In. destruct (years b a) as [|y1 ys]; cbn in Hy; [done|]. by right. }
    rewrite <- HI in Hy.
    destruct (run_recurrence b a y Hy) as (Hrec & Hpop).
    destruct (recurrence_numbers a (run b a) y Hrec Hpop)
      as (r0 & c0 & d0 & e0 & a0 & _ & _ & _ & _ & _ & _ & _ & HCF & _).
    cbv zeta in HCF. rewrite keyed_row by (by rewrite ?HC).
    destruct (forecast_tables b a) as (_ & _ & ->). rewrite HCF. by eexists _, _, _, _.
  - rewrite keyed_row by (by rewrite ?HI).
    destruct (forecast_tables b a) as (-> & _ & _).
    by destruct (run_base_rows b a) as (-> & _ & _).
  - rewrite keyed_row by (by rewrite ?HB).
    destruct (forecast_tables b a) as (_ & -> & _).
    by destruct (run_base_rows b a) as (_ & -> & _).
Qed.

Lemma cash_flow_rows_witness :
  1 <= Assumptions.years assumptions_1y
  /\ In 2023 (index (tCF (forecast base_2023 assumptions_1y)))
  /\ rows (tCF (forecast base_2023 assumptions_1y)) !! 2023
     = Some {| CFO := nan; CFI := nan; CFF := nan; dCash := nan |}
  /\ rows (tIS (forecast base_2023 assumptions_1y)) !! 2023
     = Some {| Revenue := Some 100%Q; EBIT := nan; Net_Income := Some 10%Q |}.
Proof.
  assert (1 <= Assumptions.years assumptions_1y) as H by (cbn; lia).
  split; [exact H|].
  destruct (cash_flow_rows base_2023 assumptions_1y H)
    as (_ & _ & Hin & Hrow & _ & HIS & _).
  split; [exact Hin|]. split; [exact Hrow | exact HIS].
Defined.

(** C8, as the specification states it, fails: in the scenario of the
    specification the cash-flow table is indexed by 2023 and 2024 and has a row
    keyed by the base year 2023. *)
Lemma cash_flow_has_base_year_row :
  1 <= Assumptions.years assumptions_1y
  /\ index (tCF (forecast base_2023 assumptions_1y)) = [2023; 2024]
  /\ is_Some (rows (tCF (forecast base_2023 assumptions_1y)) !! 2023).
Proof.
  split; [cbn; lia|]. split; [vm_compute; reflexivity|].
  vm_compute. eexists. reflexivity.
Qed.

(** ** The scenario of the specification *)

(** C5.  For a 2023 base year with revenue 100, net income 10, cash 20,
    long-term debt 30 and common equity 50, and one projected year with growth
    0.10, cost ratios 0.5, 0.2 and 0.05, interest 0.05 of debt, tax rate 0.21,
    capex 0.03 of revenue and a debt target of 0.10, whatever the remaining
    fields of the two records, the returned 2024 row of the income statement
    has Revenue 110.0, EBIT 27.5 and Net Income 20.54, and the interest and
    taxes of that pass are 1.5 and 5.46; each of the five values is the same
    before and after rounding to two decimals. *)
Theorem scenario_2024
    (cogs sga da interest tax_rate ar inventory other_current_assets ppe_net
     other_noncurrent_assets ap accrued_liabilities other_current_liabilities
     other_noncurrent_liabilities ar_pct_rev inv_pct_rev ap_pct_rev accrued_pct_rev : Q) :
  let base :=
    {| BaseYear.year := 2023; BaseYear.revenue := 100; BaseYear.cogs := cogs;
       BaseYear.sga := sga; BaseYear.da := da; BaseYear.interest := interest;
       BaseYear.tax_rate := tax_rate; BaseYear.net_income := 10; BaseYear.cash := 20;
       BaseYear.ar := ar; BaseYear.inventory := inventory;
       BaseYear.other_current_assets := other_current_assets;
       BaseYear.ppe_net := ppe_net;
       BaseYear.other_noncurrent_assets := other_noncurrent_assets;
       BaseYear.ap := ap; BaseYear.accrued_liabilities := accrued_liabilities;
       BaseYear.other_current_liabilities := other_current_liabilities;
       BaseYear.long_term_debt := 30;
       BaseYear.other_noncurrent_liabilities := other_noncurrent_liabilities;
       BaseYear.common_equity := 50 |} in
  let a :=
    {| Assumptions.years := 1; Assumptions.revenue_growth := 0.10;
       Assumptions.cogs_pct_rev := 0.5; Assumptions.sga_pct_rev := 0.2;
       Assumptions.da_pct_rev := 0.05; Assumptions.interest_pct_debt := 0.05;
       Assumptions.tax_rate := 0.21; Assumptions.ar_pct_rev := ar_pct_rev;
       Assumptions.inv_pct_rev := inv_pct_rev; Assumptions.ap_pct_rev := ap_pct_rev;
       Assumptions.accrued_pct_rev := accrued_pct_rev;
       Assumptions.capex_pct_rev := 0.03;
       Assumptions.target_debt_pct_assets := 0.10 |} in
  exists (revenue ebit net_income : Q) (l : Locals) (interest_2024 taxes_2024 : Q),
    loc (tIS (forecast base a)) 2024
    = {| Revenue := Some revenue; EBIT := Some ebit; Net_Income := Some net_income |}
    /\ (revenue == 110.0)%Q /\ (around 2 revenue == 110.0)%Q
    /\ (ebit == 27.5)%Q /\ (around 2 ebit == 27.5)%Q
    /\ (net_income == 20.54)%Q /\ (around 2 net_income == 20.54)%Q
    /\ locals (run base a) !! 2024 = Some l
    /\ l_interest l = Some interest_2024 /\ l_taxes l = Some taxes_2024
    /\ (interest_2024 == 1.5)%Q /\ (around 2 interest_2024 == 1.5)%Q
    /\ (taxes_2024 == 5.46)%Q /\ (around 2 taxes_2024 == 5.46)%Q.
Proof.
  intros base a. subst base a.
  eexists _, _, _, _, _, _.
  split; [vm_compute; reflexivity|].
  do 6 (split; [vm_compute; reflexivity|]).
  split; [vm_compute; reflexivity|].
  split; [cbn; reflexivity|]. split; [cbn; reflexivity|].
  repeat split; vm_compute; reflexivity.
Qed.

(** * The normalizer *)

(** ** Results *)

Lemma bind_Ok {A B : Type} (m : result A) (k : A -> result B) (y : B) :
  bind m k = Ok y <-> exists x : A, m = Ok x /\ k x = Ok y.
Proof.
  destruct m as [x|e]; cbn [bind]; split.
  - eauto.
  - by intros (x' & [= <-] & Hk).
  - discriminate.
  - by intros (x' & [=] & _).
Qed.

Lemma pick_absent f tag :
  annual_records f tag = [] -> pick_latest_annual_usd f tag = Ok None.
Proof.
  unfold annual_records, pick_latest_annual_usd.
  destruct (usd_items f tag) as [items|]; [|done].
  by intros ->.
Qed.

Lemma pick_present f tag x l :
  annual_records f tag = x :: l ->
  pick_latest_annual_usd f tag
  = bind (read (List.last (sorted (x :: l)) x)) (fun out => Ok (Some out)).
Proof.
  unfold annual_records, pick_latest_annual_usd.
  destruct (usd_items f tag) as [items|]; [|done].
  by intros ->.
Qed.


Lemma get_absent f tag : annual_records f tag = [] -> get f tag = Ok 0.0%Q.
Proof. intros Ha. unfold get. by rewrite (pick_absent f tag Ha). Qed.



(** What a successful call has read and computed. *)
Lemma build_inv f b :
  build_base_year_from_sec f = Ok b ->
  exists assets liabilities reported_equity : Q,
    get f "Revenues" = Ok (BaseYear.revenue b)
    /\ get f "CostOfRevenue" = Ok (BaseYear.cogs b)
    /\ get f "SellingGeneralAndAdministrativeExpense" = Ok (BaseYear.sga b)
    /\ get f "DepreciationDepletionAndAmortization" = Ok (BaseYear.da b)
    /\ get f "InterestExpense" = Ok (BaseYear.interest b)
    /\ get f "NetIncomeLoss" = Ok (BaseYear.net_income b)
    /\ get f "Assets" = Ok assets
    /\ get f "Liabilities" = Ok liabilities
    /\ get f "CashAndCashEquivalentsAtCarryingValue" = Ok (BaseYear.cash b)
    /\ get f "AccountsReceivableNetCurrent" = Ok (BaseYear.ar b)
    /\ get f "InventoryNet" = Ok (BaseYear.inventory b)
    /\ get f "PropertyPlantAndEquipmentNet" = Ok (BaseYear.ppe_net b)
    /\ get f "AccountsPayableCurrent" = Ok (BaseYear.ap b)
    /\ get f "AccruedLiabilitiesCurrent" = Ok (BaseYear.accrued_liabilities b)
    /\ get f "LongTermDebtNoncurrent" = Ok (BaseYear.long_term_debt b)
    /\ get f "StockholdersEquity" = Ok reported_equity
    /\ base_year f = Ok (BaseYear.year b)
    /\ BaseYear.tax_rate b = 0.21%Q
    /\ BaseYear.common_equity b = or_else reported_equity (assets - liabilities)%Q
    /\ BaseYear.other_current_assets b
       = (maxQ 0.0 (assets - (BaseYear.cash b + BaseYear.ar b + BaseYear.inventory b
                              + BaseYear.ppe_net b)) * 0.5)%Q
    /\ BaseYear.other_noncurrent_assets b
       = (maxQ 0.0 (assets - (BaseYear.cash b + BaseYear.ar b + BaseYear.inventory b
                              + BaseYear.ppe_net b)) * 0.5)%Q
    /\ BaseYear.other_current_liabilities b
       = (maxQ 0.0 (liabilities - (BaseYear.ap b + BaseYear.accrued_liabilities b
                                   + BaseYear.long_term_debt b)) * 0.5)%Q
    /\ BaseYear.other_noncurrent_liabilities b
       = (maxQ 0.0 (liabilities - (BaseYear.ap b + BaseYear.accrued_liabilities b
                                   + BaseYear.long_term_debt b)) * 0.5)%Q.
Proof.
  unfold build_base_year_from_sec. intros Hb.
  repeat (apply bind_Ok in Hb as (? & ? & Hb)).
  injection Hb as <-. cbn. eexists _, _, _. repeat split; eassumption.
Qed.




(** ** Residuals *)

(** C6.  Whenever the normalizer produces a base year, with [assets], [cash],
    ... the values it looked up, the residuals are
    [other_assets = max(0.0, assets - (cash + receivables + inventory + PP&E))]
    and [other_liabilities = max(0.0, liabilities - (payables + accrued + debt))],
    and each is split in two halves: both "other assets" fields are
    [other_assets * 0.5] and both "other liabilities" fields are
    [other_liabilities * 0.5]. *)
Theorem residuals_split_evenly (f : CompanyFacts) (b : BaseYear.t) :
  build_base_year_from_sec f = Ok b ->
  exists assets liabilities cash receivables inventory ppe payables accrued debt : Q,
    get f "Assets" = Ok assets
    /\ get f "Liabilities" = Ok liabilities
    /\ get f "CashAndCashEquivalentsAtCarryingValue" = Ok cash
    /\ get f "AccountsReceivableNetCurrent" = Ok receivables
    /\ get f "InventoryNet" = Ok inventory
    /\ get f "PropertyPlantAndEquipmentNet" = Ok ppe
    /\ get f "AccountsPayableCurrent" = Ok payables
    /\ get f "AccruedLiabilitiesCurrent" = Ok accrued
    /\ get f "LongTermDebtNoncurrent" = Ok debt
    /\ let other_assets := Qmax 0.0 (assets - (cash + receivables + inventory + ppe)) in
       let other_liabilities := Qmax 0.0 (liabilities - (payables + accrued + debt)) in
       BaseYear.other_current_assets b = (other_assets * 0.5)%Q
       /\ BaseYear.other_noncurrent_assets b = (other_assets * 0.5)%Q
       /\ BaseYear.other_current_liabilities b = (other_liabilities * 0.5)%Q
       /\ BaseYear.other_noncurrent_liabilities b = (other_liabilities * 0.5)%Q.
Proof.
  intros Hb. destruct (build_inv f b Hb) as (assets & liabilities & equity & H).
  exists assets, liabilities, (BaseYear.cash b), (BaseYear.ar b), (BaseYear.inventory b),
    (BaseYear.ppe_net b), (BaseYear.ap b), (BaseYear.accrued_liabilities b),
    (BaseYear.long_term_debt b).
  cbv zeta. rewrite <- !maxQ_Qmax. repeat split; apply H.
Qed.

Lemma filing_2023_builds :
  exists b, build_base_year_from_sec filing_2023 = Ok b.
Proof. eexists. vm_compute. reflexivity. Qed.

Lemma residuals_split_evenly_witness :
  exists b : BaseYear.t,
    build_base_year_from_sec filing_2023 = Ok b
    /\ BaseYear.other_current_assets b = BaseYear.other_noncurrent_assets b
    /\ (BaseYear.other_current_assets b == 20)%Q
    /\ (BaseYear.other_current_liabilities b == 8)%Q.
Proof.
  destruct (build_base_year_from_sec filing_2023) as [b|e] eqn:Hb;
    [|exfalso; vm_compute in Hb; discriminate].
  exists b. split; [reflexivity|].
  destruct (residuals_split_evenly filing_2023 b Hb)
    as (assets & liabilities & cash & receivables & inventory & ppe & payables & accrued
        & debt & _ & _ & _ & _ & _ & _ & _ & _ & _ & H1 & H2 & H3 & H4).
  split; [congruence|].
  assert (Ok b = build_base_year_from_sec filing_2023) as Hb' by (symmetry; exact Hb).
  vm_compute in Hb'. injection Hb' as ->. split; vm_compute; reflexivity.
Defined.

(** ** The equity fallback *)

(** C9.  Whenever the normalizer produces a base year and the lookup of
    stockholders' equity came back empty or with a value equal to zero, the
    common equity of the base year is total assets minus total liabilities: a
    reported zero is replaced, like a missing value. *)
Theorem equity_fallback_on_zero
    (f : CompanyFacts) (b : BaseYear.t) (reported : option (Z * Q)) :
  build_base_year_from_sec f = Ok b ->
  pick_latest_annual_usd f "StockholdersEquity" = Ok reported ->
  match reported with
  | None => True
  | Some (_, v) => (v == 0)%Q
  end ->
  exists assets liabilities : Q,
    get f "Assets" = Ok assets
    /\ get f "Liabilities" = Ok liabilities
    /\ BaseYear.common_equity b = (assets - liabilities)%Q.
Proof.
  intros Hb Hpick Hzero. destruct (build_inv f b Hb) as (assets & liabilities & equity & H).
  exists assets, liabilities. split; [apply H|]. split; [apply H|].
  assert (get f "StockholdersEquity" = Ok equity) as Hget by apply H.
  assert (BaseYear.common_equity b = or_else equity (assets - liabilities)%Q) as -> by apply H.
  unfold get in Hget. rewrite Hpick in Hget. cbn [bind] in Hget. injection Hget as <-.
  unfold or_else. destruct reported as [[y v]|].
  - apply Qeq_bool_iff in Hzero. by rewrite Hzero.
  - reflexivity.
Qed.

Lemma equity_fallback_on_zero_witness :
  exists b : BaseYear.t,
    build_base_year_from_sec filing_2023 = Ok b
    /\ pick_latest_annual_usd filing_2023 "StockholdersEquity" = Ok (Some (2023, 0%Q))
    /\ exists assets liabilities : Q,
         get filing_2023 "Assets" = Ok assets
         /\ get filing_2023 "Liabilities" = Ok liabilities
         /\ BaseYear.common_equity b = (assets - liabilities)%Q.
Proof.
  destruct (build_base_year_from_sec filing_2023) as [b|e] eqn:Hb;
    [|exfalso; vm_compute in Hb; discriminate].
  assert (pick_latest_annual_usd filing_2023 "StockholdersEquity" = Ok (Some (2023, 0%Q)))
    as Hpick by (vm_compute; reflexivity).
  exists b. split; [reflexivity|]. split; [exact Hpick|].
  apply (equity_fallback_on_zero filing_2023 b (Some (2023, 0%Q)) Hb Hpick).
  reflexivity.
Defined.

(** ** Success and failure of the normalizer *)













(** The first half in a case where line 138 is not reached: without revenue
    and with a total-assets record that has no "val", the call raises KeyError,
    from line 105. *)
Lemma valueless_assets_raise_KeyError :
  annual_records valueless_assets "Revenues" = []
  /\ build_base_year_from_sec valueless_assets = Raise KeyError.
Proof. split; vm_compute; reflexivity. Qed.


(** ** The order of the sort keys *)

Lemma string_compare_Gt (s t : string) : String.compare s t = Gt <-> String_as_OT.lt t s.
Proof.
  rewrite <- String_as_OT.cmp_lt. unfold String_as_OT.cmp.
  rewrite (String.compare_antisym t s). by destruct (String.compare s t).
Qed.

Lemma string_lt_irrefl (s : string) : ~ String_as_OT.lt s s.
Proof. intros Hlt. by apply String_as_OT.lt_not_eq in Hlt. Qed.

Lemma string_trichotomy (s t : string) :
  String_as_OT.lt s t \/ s = t \/ String_as_OT.lt t s.
Proof.
  destruct (String.compare s t) eqn:Hc.
  - right. left. by apply String.compare_eq_iff.
  - left. by apply String_as_OT.cmp_lt.
  - right. right. by apply string_compare_Gt.
Qed.

Lemma key_ltb_spec (a b : string * string) : key_ltb a b = true <-> key_lt a b.
Proof.
  unfold key_ltb, key_lt, String.ltb.
  destruct (String.compare (fst a) (fst b)) eqn:Hc.
  - apply String.compare_eq_iff in Hc. rewrite Hc.
    destruct (String.compare (snd a) (snd b)) eqn:Hd; split; try done.
    + intros [Hlt|[_ Hlt]]; [by apply string_lt_irrefl in Hlt|].
      apply String_as_OT.cmp_lt in Hlt. unfold String_as_OT.cmp in Hlt. congruence.
    + intros _. right. split; [done|]. by apply String_as_OT.cmp_lt.
    + intros [Hlt|[_ Hlt]]; [by apply string_lt_irrefl in Hlt|].
      apply String_as_OT.cmp_lt in Hlt. unfold String_as_OT.cmp in Hlt. congruence.
  - split; [intros _|done]. left. by apply String_as_OT.cmp_lt.
  - apply string_compare_Gt in Hc. split; [done|].
    intros [Hlt|[Heq Hlt]].
    + exfalso. apply (string_lt_irrefl (fst a)). by apply (String_as_OT.lt_trans _ (fst b)).
    + rewrite Heq in Hc. by apply string_lt_irrefl in Hc.
Qed.

Lemma key_lt_trans (a b c : string * string) : key_lt a b -> key_lt b c -> key_lt a c.
Proof.
  unfold key_lt. intros [H1|[E1 H1]] [H2|[E2 H2]].
  - left. by apply (String_as_OT.lt_trans _ (fst b)).
  - left. by rewrite <- E2.
  - left. by rewrite E1.
  - right. split; [congruence|]. by apply (String_as_OT.lt_trans _ (snd b)).
Qed.

Lemma key_lt_irrefl (a : string * string) : ~ key_lt a a.
Proof. intros [H|[_ H]]; by apply string_lt_irrefl in H. Qed.

Lemma key_trichotomy (a b : string * string) : key_lt a b \/ a = b \/ key_lt b a.
Proof.
  unfold key_lt. destruct a as [a1 a2], b as [b1 b2]. cbn [fst snd].
  destruct (string_trichotomy a1 b1) as [H|[->|H]]; [tauto| |tauto].
  destruct (string_trichotomy a2 b2) as [H|[->|H]]; tauto.
Qed.

Lemma key_le_spec (a b : string * string) : key_le a b <-> key_lt a b \/ a = b.
Proof.
  unfold key_le. rewrite <- not_true_iff_false, key_ltb_spec.
  destruct (key_trichotomy a b) as [H|[->|H]].
  - split; [tauto|]. intros _ H'. apply (key_lt_irrefl a). by apply (key_lt_trans _ b).
  - split; [tauto|]. intros _. apply key_lt_irrefl.
  - split; [tauto|]. intros [H'| ->].
    + exfalso. apply (key_lt_irrefl a). by apply (key_lt_trans _ b).
    + by apply key_lt_irrefl in H.
Qed.

Lemma key_le_refl (a : string * string) : key_le a a.
Proof. apply key_le_spec. by right. Qed.

Lemma key_le_trans (a b c : string * string) : key_le a b -> key_le b c -> key_le a c.
Proof.
  rewrite !key_le_spec. intros [H1| ->] [H2| ->]; try tauto.
  left. by apply (key_lt_trans _ b).
Qed.

Lemma key_lt_le (a b : string * string) : key_ltb a b = true -> key_le a b.
Proof. rewrite key_ltb_spec, key_le_spec. tauto. Qed.

Lemma key_lt_le_trans (a b c : string * string) :
  key_ltb a b = true -> key_le b c -> key_ltb a c = true.
Proof.
  rewrite !key_ltb_spec, key_le_spec. intros H1 [H2| <-]; [|done].
  by apply (key_lt_trans _ b).
Qed.

(** ** The record that the sort puts last *)

Lemma insert_elem (x y : Fact) (l : list Fact) : In y (insert x l) <-> y = x \/ In y l.
Proof.
  induction l as [|z l IH]; cbn [insert].
  - cbn [In]. intuition congruence.
  - destruct (key_ltb (key x) (key z)); cbn [In]; [intuition congruence|].
    rewrite IH. intuition congruence.
Qed.

Lemma insert_ascending (x : Fact) (l : list Fact) : ascending l -> ascending (insert x l).
Proof.
  unfold ascending. induction 1 as [|z l Hl IH Hz]; cbn [insert].
  - repeat constructor.
  - destruct (key_ltb (key x) (key z)) eqn:Hxz.
    + constructor; [by constructor|]. constructor; [by apply key_lt_le|].
      eapply Forall_impl; [exact Hz|]. intros u Hu. cbn beta in Hu.
      apply (key_le_trans _ (key z)); [by apply key_lt_le | done].
    + constructor; [exact IH|].
      apply Forall_forall. intros u Hu. apply list_elem_of_In, insert_elem in Hu as [->|Hu].
      * exact Hxz.
      * rewrite Forall_forall in Hz. by apply Hz, list_elem_of_In.
Qed.

Lemma insert_nonempty (x : Fact) (l : list Fact) : insert x l <> [].
Proof. destruct l as [|z l]; cbn [insert]; [done|]. by destruct (key_ltb _ _). Qed.

Lemma ascending_last (l : list Fact) (d u : Fact) :
  ascending l -> In u l -> key_le (key u) (key (List.last l d)).
Proof.
  unfold ascending. induction 1 as [|z l Hl IH Hz]; [done|].
  intros [->|Hu].
  - destruct l as [|w l]; [apply key_le_refl|].
    rewrite Forall_forall in Hz. apply Hz, list_elem_of_In.
    change (In (List.last (w :: l) d) (w :: l)).
    clear. revert w. induction l as [|v l IH]; intros w; [by left|].
    right. apply IH.
  - destruct l as [|w l]; [done|]. by apply IH.
Qed.

Lemma last_insert (x : Fact) (l : list Fact) (d : Fact) :
  ascending l -> l <> [] ->
  List.last (insert x l) d = later_wins (List.last l d) x.
Proof.
  intros Hasc Hne. induction l as [|z l IH]; [done|].
  pose proof (ascending_last (z :: l) d z Hasc (or_introl eq_refl)) as Hzlast.
  cbn [insert]. destruct (key_ltb (key x) (key z)) eqn:Hxz.
  - unfold later_wins. rewrite (key_lt_le_trans _ _ _ Hxz Hzlast). reflexivity.
  - destruct l as [|w l].
    + cbn [insert List.last]. unfold later_wins. by rewrite Hxz.
    + assert (List.last (z :: insert x (w :: l)) d = List.last (insert x (w :: l)) d) as ->.
      { pose proof (insert_nonempty x (w :: l)). by destruct (insert x (w :: l)). }
      rewrite IH; [done| |done]. by inversion Hasc.
Qed.

Lemma last_fold_insert (l acc : list Fact) (d : Fact) :
  ascending acc -> acc <> [] ->
  List.last (fold_left (fun acc x => insert x acc) l acc) d
  = fold_left later_wins l (List.last acc d).
Proof.
  revert acc. induction l as [|x l IH]; intros acc Hasc Hne; [done|].
  cbn [fold_left]. rewrite IH.
  - by rewrite last_insert.
  - by apply insert_ascending.
  - apply insert_nonempty.
Qed.

Lemma last_sorted (x : Fact) (l : list Fact) (d : Fact) :
  List.last (sorted (x :: l)) d = fold_left later_wins l x.
Proof.
  unfold sorted. cbn [fold_left insert]. rewrite last_fold_insert; [done| |done].
  unfold ascending. repeat constructor.
Qed.

(** The scan stops at the last record among those with the greatest key. *)
Lemma scan_split (l : list Fact) (m : Fact) :
  exists pre post : list Fact,
    m :: l = pre ++ fold_left later_wins l m :: post
    /\ Forall (fun u => key_le (key u) (key (fold_left later_wins l m))) pre
    /\ Forall (fun u => key_ltb (key u) (key (fold_left later_wins l m)) = true) post.
Proof.
  revert m. induction l as [|x l IH]; intros m.
  - exists [], []. by repeat split.
  - cbn [fold_left].
    destruct (IH (later_wins m x)) as (pre & post & Heq & Hpre & Hpost).
    set (r := fold_left later_wins l (later_wins m x)) in *.
    unfold later_wins in Heq. destruct (key_ltb (key x) (key m)) eqn:Hxm.
    + destruct pre as [|p pre]; cbn [app] in Heq.
      * injection Heq as Hm Hl. exists [], (x :: post). cbn [app].
        split; [congruence|]. split; [done|]. constructor; [congruence|done].
      * injection Heq as Hm Hl. subst p.
        exists (m :: x :: pre), post. cbn [app]. split; [congruence|]. split; [|done].
        apply Forall_cons in Hpre as [Hmr Hpre'].
        constructor; [done|]. constructor; [|done].
        apply (key_le_trans _ (key m)); [by apply key_lt_le | done].
    + exists (m :: pre), post. cbn [app]. rewrite <- Heq. split; [done|].
      split; [|done]. constructor; [|done].
      destruct pre as [|p pre]; cbn [app] in Heq.
      * injection Heq as Hx Hl. rewrite <- Hx. exact Hxm.
      * injection Heq as Hx Hl. subst p.
        apply Forall_cons in Hpre as [Hxr Hpre'].
        apply (key_le_trans _ (key x)); [exact Hxm | done].
Qed.

(** ** Picking the latest annual record *)

Lemma usd_items_Some (f : CompanyFacts) (tag : string) (items : list Fact) :
  usd_items f tag = Some items <-> reported_usd f tag items.
Proof.
  unfold usd_items, reported_usd. split.
  - destruct (facts f) as [taxonomies|]; [|done].
    destruct (taxonomies !! "us-gaap"%string) as [reported|] eqn:H1; [|done].
    destruct (reported !! tag) as [c|] eqn:H2; [|done].
    destruct (units c) as [u|] eqn:H3; [|done].
    intros H4. by exists taxonomies, reported, c, u.
  - intros (taxonomies & reported & c & u & -> & -> & -> & -> & ->). done.
Qed.

Lemma is_annual_spec (x : Fact) : is_annual x = true <-> fp x = Some "FY"%string.
Proof.
  unfold is_annual. destruct (fp x) as [s|]; [|done].
  rewrite String.eqb_eq. split; congruence.
Qed.


(** * More about the forecast engine *)

(** ** What [round(2)] does to the returned frames *)

(** X1.  The three frames that [forecast] returns have dtype object, and each
    is, cell for cell, the frame that the loop has left: the final [round(2)]
    changes nothing. *)
Theorem forecast_returns_loop_frames (b : BaseYear.t) (a : Assumptions.t) :
  let t := forecast b a in
  (dtypes (tIS t) = object /\ dtypes (tBS t) = object /\ dtypes (tCF t) = object)
  /\ tIS t = IS (run b a) /\ tBS t = BS (run b a) /\ tCF t = CF (run b a).
Proof.
  intros t. subst t.
  destruct (forecast_tables b a) as (HI & HB & HC). rewrite HI, HB, HC.
  split; [apply run_dtypes | done].
Qed.

(** ** The base-year rows *)

(** X2.  Whatever the horizon, the base-year rows of the returned tables are
    the seeded ones: the loop never writes to them.  Revenue and net income,
    cash, debt and equity are the base year's; Assets is cash + PP&E + other
    current + other non-current assets; EBIT and the four cash-flow cells are
    NaN. *)
Theorem base_year_rows_kept (b : BaseYear.t) (a : Assumptions.t) :
  let t := forecast b a in
  let y := BaseYear.year b in
  loc (tIS t) y
  = {| Revenue := Some (BaseYear.revenue b); EBIT := nan;
       Net_Income := Some (BaseYear.net_income b) |}
  /\ loc (tBS t) y
     = {| Cash := Some (BaseYear.cash b);
          Debt := Some (BaseYear.long_term_debt b);
          Equity := Some (BaseYear.common_equity b);
          Assets := Some (BaseYear.cash b + BaseYear.ppe_net b
                          + BaseYear.other_current_assets b
                          + BaseYear.other_noncurrent_assets b)%Q |}
  /\ loc (tCF t) y = {| CFO := nan; CFI := nan; CFF := nan; dCash := nan |}.
Proof.
  intros t y. subst t y.
  destruct (forecast_tables b a) as (-> & -> & ->).
  by destruct (run_base_rows b a) as (-> & -> & ->).
Qed.

(** ** The fields that are not read *)

Lemma fold_left_ext_fun {A B : Type} (f g : A -> B -> A) (l : list B) (x : A) :
  (forall s y, f s y = g s y) -> fold_left f l x = fold_left g l x.
Proof.
  intros Hfg. revert x. induction l as [|y l IH]; intros x; [done|].
  cbn [fold_left]. by rewrite Hfg.
Qed.

(** X3.  [forecast] reads nine fields of the base year (year, revenue, net
    income, cash, long-term debt, common equity, PP&E and the two other-asset
    buckets) and nine of the assumptions (the horizon, growth, the three cost
    ratios, the interest rate, the tax rate, capex and the debt target).  Two
    calls whose inputs agree on these return the same tables; cost of goods
    sold, SG&A, D&A, interest, the base tax rate, receivables, inventory, the
    liabilities other than debt and the four working-capital ratios have no
    effect. *)
Theorem forecast_ignores_unused_fields (b b' : BaseYear.t) (a a' : Assumptions.t) :
  same_inputs b b' a a' -> forecast b a = forecast b' a'.
Proof.
  intros H. unfold same_inputs in H.
  destruct H as (H1 & H2 & H3 & H4 & H5 & H6 & H7 & H8 & H9
                 & G1 & G2 & G3 & G4 & G5 & G6 & G7 & G8 & G9).
  assert (years b a = years b' a') as Hy by (unfold years; by rewrite H1, G1).
  assert (seed b a = seed b' a') as Hs.
  { unfold seed. rewrite Hy. cbv zeta. by rewrite H1, H2, H3, H4, H5, H6, H7, H8, H9. }
  assert (forall s y, body a s y = body a' s y) as Hb.
  { intros s y. unfold body. by rewrite G2, G3, G4, G5, G6, G7, G8, G9. }
  assert (run b a = run b' a') as Hr.
  { unfold run. rewrite Hy, Hs. by apply fold_left_ext_fun. }
  unfold forecast. by rewrite Hr.
Qed.

Lemma forecast_ignores_unused_fields_witness :
  same_inputs base_2023 base_2023_detailed assumptions_1y assumptions_1y_detailed
  /\ forecast base_2023 assumptions_1y
     = forecast base_2023_detailed assumptions_1y_detailed.
Proof.
  assert (same_inputs base_2023 base_2023_detailed assumptions_1y assumptions_1y_detailed)
    as H by (repeat split; reflexivity).
  split; [exact H|].
  exact (forecast_ignores_unused_fields _ _ _ _ H).
Defined.

(** ** Rows in terms of the row before *)

(** The rows of year [j + 1] in terms of the cells of year [j]. *)
Lemma after_rows b a (j k : nat) :
  (S j <= k)%nat ->
  let s := after b a k in
  let y0 := BaseYear.year b + Z.of_nat j in
  let y := BaseYear.year b + Z.of_nat (S j) in
  exists revenue0 cash0 debt0 equity0 assets0 : Q,
    Revenue (loc (IS s) y0) = Some revenue0
    /\ Cash (loc (BS s) y0) = Some cash0
    /\ Debt (loc (BS s) y0) = Some debt0
    /\ Equity (loc (BS s) y0) = Some equity0
    /\ Assets (loc (BS s) y0) = Some assets0
    /\ let revenue := (revenue0 * (1 + Assumptions.revenue_growth a))%Q in
       let ebit := (revenue * (1 - Assumptions.cogs_pct_rev a - Assumptions.sga_pct_rev a
                               - Assumptions.da_pct_rev a))%Q in
       let interest := (debt0 * Assumptions.interest_pct_debt a)%Q in
       let taxes := maxQ 0 ((ebit - interest) * Assumptions.tax_rate a)%Q in
       let ni := (ebit - interest - taxes)%Q in
       let equity := (equity0 + ni)%Q in
       let debt := (Assumptions.target_debt_pct_assets a * assets0)%Q in
       let capex := (revenue * Assumptions.capex_pct_rev a)%Q in
       let cfo := ni in
       let cfi := (- capex)%Q in
       let cff := (debt - debt0)%Q in
       let dcash := (cfo + cfi + cff)%Q in
       let cash := (cash0 + dcash)%Q in
       loc (IS s) y = {| Revenue := Some revenue; EBIT := Some ebit; Net_Income := Some ni |}
       /\ loc (BS s) y = {| Cash := Some cash; Debt := Some debt; Equity := Some equity;
                            Assets := Some (cash + debt + equity)%Q |}
       /\ loc (CF s) y = {| CFO := Some cfo; CFI := Some cfi; CFF := Some cff;
                            dCash := Some dcash |}
       /\ locals s !! y = Some {| l_ebit := Some ebit; l_interest := Some interest;
                                  l_taxes := Some taxes; l_ni := Some ni;
                                  l_capex := Some capex |}.
Proof.
  intros Hjk s y0 y. subst s y0 y.
  pose proof (after_recurrence b a (S j) k ltac:(lia)) as Hrec.
  pose proof (after_populated b a j k ltac:(lia)) as Hpop.
  cbv beta in Hrec, Hpop.
  replace (BaseYear.year b + Z.of_nat j)
    with (BaseYear.year b + Z.of_nat (S j) - 1) in Hpop |- * by lia.
  exact (recurrence_numbers a _ _ Hrec Hpop).
Qed.

Lemma after_base_rows b a (k : nat) :
  loc (IS (after b a k)) (BaseYear.year b + Z.of_nat 0) = seeded_IS b
  /\ loc (BS (after b a k)) (BaseYear.year b + Z.of_nat 0) = seeded_BS b
  /\ loc (CF (after b a k)) (BaseYear.year b + Z.of_nat 0) = blank.
Proof.
  destruct (after_stable b a 0 k) as (H1 & H2 & H3 & _); [lia|].
  rewrite H1, H2, H3, after_0.
  replace (BaseYear.year b + Z.of_nat 0) with (BaseYear.year b) by lia.
  by rewrite seed_IS_base, seed_BS_base, seed_CF.
Qed.

(** ** The horizon *)

Lemma after_agree b a a' (j k k' : nat) :
  same_rates a a' -> (j <= k)%nat -> (j <= k')%nat ->
  loc (IS (after b a k)) (BaseYear.year b + Z.of_nat j)
  = loc (IS (after b a' k')) (BaseYear.year b + Z.of_nat j)
  /\ loc (BS (after b a k)) (BaseYear.year b + Z.of_nat j)
     = loc (BS (after b a' k')) (BaseYear.year b + Z.of_nat j)
  /\ loc (CF (after b a k)) (BaseYear.year b + Z.of_nat j)
     = loc (CF (after b a' k')) (BaseYear.year b + Z.of_nat j).
Proof.
  intros (G2 & G3 & G4 & G5 & G6 & G7 & G8 & G9).
  induction j as [|j IH]; intros Hk Hk'.
  - destruct (after_base_rows b a k) as (-> & -> & ->).
    by destruct (after_base_rows b a' k') as (-> & -> & ->).
  - destruct IH as (HI & HB & _); [lia|lia|].
    destruct (after_rows b a j k Hk)
      as (r0 & c0 & d0 & e0 & a0 & Hr & Hc & Hd & He & Ha & H1 & H2 & H3 & _).
    destruct (after_rows b a' j k' Hk')
      as (r0' & c0' & d0' & e0' & a0' & Hr' & Hc' & Hd' & He' & Ha' & H1' & H2' & H3' & _).
    cbv zeta in *.
    rewrite HI in Hr. rewrite HB in Hc, Hd, He, Ha.
    assert (r0' = r0) as -> by congruence. assert (c0' = c0) as -> by congruence.
    assert (d0' = d0) as -> by congruence. assert (e0' = e0) as -> by congruence.
    assert (a0' = a0) as -> by congruence.
    rewrite H1, H2, H3, H1', H2', H3'.
    by rewrite G2, G3, G4, G5, G6, G7, G8, G9.
Qed.

(** X4.  Changing the horizon only adds or removes rows at the end: for two
    sets of assumptions that differ in [years] alone, every year that both
    forecasts cover has the same row in the income statement, in the balance
    sheet and in the cash-flow table. *)
Theorem forecast_horizon_extends (b : BaseYear.t) (a a' : Assumptions.t) (y : Z) :
  same_rates a a' ->
  In y (index (tIS (forecast b a))) ->
  In y (index (tIS (forecast b a'))) ->
  loc (tIS (forecast b a)) y = loc (tIS (forecast b a')) y
  /\ loc (tBS (forecast b a)) y = loc (tBS (forecast b a')) y
  /\ loc (tCF (forecast b a)) y = loc (tCF (forecast b a')) y.
Proof.
  intros Hsame Hy Hy'.
  destruct (forecast_index b a) as (HI & _). destruct (forecast_index b a') as (HI' & _).
  rewrite HI in Hy. rewrite HI' in Hy'.
  apply list_elem_of_In, elem_of_years in Hy as (j & Hj & ->).
  apply list_elem_of_In, elem_of_years in Hy' as (j' & Hj' & Heq).
  assert (j' = j) as -> by lia.
  destruct (forecast_tables b a) as (-> & -> & ->).
  destruct (forecast_tables b a') as (-> & -> & ->).
  rewrite !run_after. by apply after_agree.
Qed.

Lemma forecast_horizon_extends_witness :
  same_rates (main_assumptions 1 0.06) (main_assumptions 3 0.06)
  /\ In 2024 (index (tIS (forecast (small_company 1000) (main_assumptions 1 0.06))))
  /\ In 2024 (index (tIS (forecast (small_company 1000) (main_assumptions 3 0.06))))
  /\ loc (tBS (forecast (small_company 1000) (main_assumptions 1 0.06))) 2024
     = loc (tBS (forecast (small_company 1000) (main_assumptions 3 0.06))) 2024.
Proof.
  assert (same_rates (main_assumptions 1 0.06) (main_assumptions 3 0.06)) as H1
    by (repeat split; reflexivity).
  assert (In 2024 (index (tIS (forecast (small_company 1000) (main_assumptions 1 0.06)))))
    as H2 by (vm_compute; right; left; reflexivity).
  assert (In 2024 (index (tIS (forecast (small_company 1000) (main_assumptions 3 0.06)))))
    as H3 by (vm_compute; right; left; reflexivity).
  split; [exact H1|]. split; [exact H2|]. split; [exact H3|].
  destruct (forecast_horizon_extends (small_company 1000) _ _ 2024 H1 H2 H3) as (_ & H & _).
  exact H.
Defined.

(** ** Growth in closed form *)

(** X5.  Revenue compounds: [k] years after the base year, for [k] up to the
    horizon, the returned Revenue is the base revenue times
    [(1 + revenue_growth) ^ k]; and from the first projected year on, EBIT is
    that revenue times the blended margin [1 - cogs - sga - da] and CFI is
    minus that revenue times the capex ratio. *)
Theorem revenue_compounds (b : BaseYear.t) (a : Assumptions.t) (k : nat) :
  Z.of_nat k <= Assumptions.years a ->
  let y := BaseYear.year b + Z.of_nat k in
  exists revenue : Q,
    Revenue (loc (tIS (forecast b a)) y) = Some revenue
    /\ (revenue == BaseYear.revenue b * (1 + Assumptions.revenue_growth a) ^ Z.of_nat k)%Q
    /\ ((1 <= k)%nat ->
        exists ebit cfi : Q,
          EBIT (loc (tIS (forecast b a)) y) = Some ebit
          /\ CFI (loc (tCF (forecast b a)) y) = Some cfi
          /\ (ebit == revenue * (1 - Assumptions.cogs_pct_rev a - Assumptions.sga_pct_rev a
                                 - Assumptions.da_pct_rev a))%Q
          /\ (cfi == - (revenue * Assumptions.capex_pct_rev a))%Q).
Proof.
  intros Hk y. subst y.
  destruct (forecast_tables b a) as (-> & _ & ->). rewrite run_after.
  set (n := Z.to_nat (Assumptions.years a)).
  assert (k <= n)%nat as Hkn by lia. clearbody n. clear Hk.
  induction k as [|k IH].
  - destruct (after_base_rows b a n) as (-> & _ & _). eexists. split; [reflexivity|].
    split; [|lia]. cbn. rewrite Qmult_1_r. reflexivity.
  - destruct IH as (r & Hr & Hreq & _); [lia|].
    destruct (after_rows b a k n Hkn)
      as (r0 & c0 & d0 & e0 & a0 & Hr0 & _ & _ & _ & _ & H1 & _ & H3 & _).
    cbv zeta in H1, H3. rewrite H1, H3. cbn [Revenue EBIT CFI].
    assert (r0 = r) as -> by congruence.
    eexists. split; [reflexivity|]. split.
    + rewrite Hreq, Nat2Z.inj_succ. unfold Z.succ.
      rewrite Qpower.Qpower_plus' by lia. rewrite Qpower.Qpower_1_r.
      symmetry. apply Qmult_assoc.
    + intros _. eexists _, _. by repeat split.
Qed.

Lemma revenue_compounds_witness :
  Z.of_nat 2 <= Assumptions.years (main_assumptions 2 0.06)
  /\ exists revenue : Q,
       Revenue (loc (tIS (forecast (small_company 1000) (main_assumptions 2 0.06))) 2025)
       = Some revenue
       /\ (revenue == 1000 * (1 + 0.06) ^ 2)%Q.
Proof.
  assert (Z.of_nat 2 <= Assumptions.years (main_assumptions 2 0.06)) as H by (cbn; lia).
  split; [exact H|].
  destruct (revenue_compounds (small_company 1000) (main_assumptions 2 0.06) 2 H)
    as (revenue & Hr & Heq & _).
  exists revenue. split; [exact Hr | exact Heq].
Defined.

(** ** Net income and taxes *)

Lemma maxQ_cases (x y : Q) : (y <= x /\ maxQ x y = x)%Q \/ (x < y /\ maxQ x y = y)%Q.
Proof.
  unfold maxQ, Qgtb. destruct (Qle_bool y x) eqn:H; cbn [negb].
  - left. split; [by apply Qle_bool_iff|done].
  - right. split; [|done]. apply Qnot_le_lt. intros Hle%Qle_bool_iff. congruence.
Qed.

(** X6.  In every projected year the returned Net Income is at most
    EBIT - interest.  It equals EBIT - interest whenever
    [(EBIT - interest) * tax_rate <= 0]: a loss earns no tax credit.  And it is
    not negative when EBIT - interest is not negative and the tax rate is at
    most 1. *)
Theorem net_income_after_tax (b : BaseYear.t) (a : Assumptions.t) (y : Z) :
  In y (tail (index (tIS (forecast b a)))) ->
  exists (l : Locals) (ebit interest ni : Q),
    locals (run b a) !! y = Some l
    /\ l_interest l = Some interest
    /\ EBIT (loc (tIS (forecast b a)) y) = Some ebit
    /\ Net_Income (loc (tIS (forecast b a)) y) = Some ni
    /\ (ni <= ebit - interest)%Q
    /\ (((ebit - interest) * Assumptions.tax_rate a <= 0)%Q -> (ni == ebit - interest)%Q)
    /\ ((0 <= ebit - interest)%Q -> (Assumptions.tax_rate a <= 1)%Q -> (0 <= ni)%Q).
Proof.
  intros Hy. destruct (run_recurrence b a y Hy) as (Hrec & Hpop).
  destruct (recurrence_numbers a (run b a) y Hrec Hpop)
    as (r0 & c0 & d0 & e0 & a0 & _ & _ & _ & _ & _ & HIS & _ & _ & HL).
  cbv zeta in HIS, HL. destruct (forecast_tables b a) as (-> & _ & _).
  rewrite HIS, HL. cbn [EBIT Net_Income].
  eexists _, _, _, _. split; [reflexivity|]. cbn [l_interest].
  do 3 (split; [reflexivity|]).
  set (ebit := (r0 * (1 + Assumptions.revenue_growth a)
                * (1 - Assumptions.cogs_pct_rev a - Assumptions.sga_pct_rev a
                   - Assumptions.da_pct_rev a))%Q).
  set (interest := (d0 * Assumptions.interest_pct_debt a)%Q).
  set (t := Assumptions.tax_rate a).
  destruct (maxQ_cases 0 ((ebit - interest) * t)) as [[Hle ->]|[Hlt ->]].
  - split; [Lqa.lra|]. split; [intros _; Lqa.lra|]. intros; Lqa.lra.
  - split; [Lqa.lra|]. split; [intros; Lqa.lra|]. intros Hp Ht. Lqa.nra.
Qed.

Lemma net_income_after_tax_witness :
  In 2024 (tail (index (tIS (forecast base_2023 assumptions_1y))))
  /\ exists ebit interest ni : Q,
       EBIT (loc (tIS (forecast base_2023 assumptions_1y)) 2024) = Some ebit
       /\ Net_Income (loc (tIS (forecast base_2023 assumptions_1y)) 2024) = Some ni
       /\ (ni <= ebit - interest)%Q.
Proof.
  assert (In 2024 (tail (index (tIS (forecast base_2023 assumptions_1y))))) as H
    by (vm_compute; left; reflexivity).
  split; [exact H|].
  destruct (net_income_after_tax base_2023 assumptions_1y 2024 H)
    as (l & ebit & interest & ni & _ & _ & He & Hn & Hle & _).
  exists ebit, interest, ni. split; [exact He|]. split; [exact Hn | exact Hle].
Defined.

(** ** Stocks and flows *)

Lemma nansum_snoc (l : list num) (x : Q) :
  exists t t' : Q,
    nansum l = Some t
    /\ nansum (l ++ @cons num (Some x) (@nil num)) = Some t'
    /\ (t' == t + x)%Q.
Proof.
  unfold nansum. rewrite map_app. cbn [map]. change (fillna0 (Some x)) with x.
  destruct (map fillna0 l) as [|z r]; cbn [app].
  - eexists _, _. do 2 (split; [reflexivity|]). cbn [fold_left]. Lqa.lra.
  - eexists _, _. do 2 (split; [reflexivity|]).
    rewrite fold_left_app. cbn [fold_left]. reflexivity.
Qed.

(** X7.  The balance sheet accumulates the flows: [k] years after the base
    year, for [k] up to the horizon, Cash is the base cash plus the sum of the
    dCash column over the projected years so far, Equity is the base equity
    plus the sum of Net Income over them, and Debt is the base debt plus the
    sum of CFF over them (sums as [Series.sum] takes them). *)
Theorem stocks_accumulate_flows (b : BaseYear.t) (a : Assumptions.t) (k : nat) :
  Z.of_nat k <= Assumptions.years a ->
  let t := forecast b a in
  let y := BaseYear.year b + Z.of_nat k in
  let projected := map (fun i : nat => BaseYear.year b + Z.of_nat i) (seq 1 k) in
  exists cash equity debt flows income financing : Q,
    Cash (loc (tBS t) y) = Some cash
    /\ Equity (loc (tBS t) y) = Some equity
    /\ Debt (loc (tBS t) y) = Some debt
    /\ nansum (map (fun z => dCash (loc (tCF t) z)) projected) = Some flows
    /\ nansum (map (fun z => Net_Income (loc (tIS t) z)) projected) = Some income
    /\ nansum (map (fun z => CFF (loc (tCF t) z)) projected) = Some financing
    /\ (cash == BaseYear.cash b + flows)%Q
    /\ (equity == BaseYear.common_equity b + income)%Q
    /\ (debt == BaseYear.long_term_debt b + financing)%Q.
Proof.
  intros Hk t y projected. subst t y projected.
  destruct (forecast_tables b a) as (-> & -> & ->). rewrite run_after.
  set (n := Z.to_nat (Assumptions.years a)).
  assert (k <= n)%nat as Hkn by lia. clearbody n. clear Hk.
  induction k as [|k IH].
  - destruct (after_base_rows b a n) as (_ & -> & _). cbn [seq map].
    eexists _, _, _, _, _, _. do 6 (split; [reflexivity|]).
    cbn [seeded_BS Cash Equity Debt]. repeat split; Lqa.lra.
  - destruct IH as (c & e & d & fl & inc & fin & Hc & He & Hd & Hfl & Hinc & Hfin
                      & Hceq & Heeq & Hdeq); [lia|].
    destruct (after_rows b a k n Hkn)
      as (r0 & c0 & d0 & e0 & a0 & _ & Hc0 & Hd0 & He0 & _ & H1 & H2 & H3 & _).
    cbv zeta in H1, H2, H3.
    assert (c0 = c) as -> by congruence. assert (d0 = d) as -> by congruence.
    assert (e0 = e) as -> by congruence.
    rewrite seq_S, !map_app. cbn [map]. change (1 + k)%nat with (S k).
    rewrite H1, H2, H3. cbn [Cash Equity Debt dCash Net_Income CFF].
    repeat match goal with
           | |- context [nansum (@app _ ?l (@cons _ (@Some _ ?x) _))] =>
               let t := fresh "t" in
               let t' := fresh "t" in
               let E := fresh "E" in
               let E' := fresh "E" in
               let Ht := fresh "Ht" in
               destruct (nansum_snoc l x) as (t & t' & E & E' & Ht);
               rewrite E'; clear E';
               first [rewrite Hfl in E | rewrite Hinc in E | rewrite Hfin in E];
               injection E as <-
           end.
    eexists _, _, _, _, _, _. do 6 (split; [reflexivity|]).
    repeat split; Lqa.lra.
Qed.

Lemma stocks_accumulate_flows_witness :
  Z.of_nat 2 <= Assumptions.years (main_assumptions 2 0.06)
  /\ exists cash flows : Q,
       Cash (loc (tBS (forecast (small_company 1000) (main_assumptions 2 0.06))) 2025)
       = Some cash
       /\ nansum (map (fun z => dCash (loc (tCF (forecast (small_company 1000)
                                                   (main_assumptions 2 0.06))) z))
                    [2024; 2025])
          = Some flows
       /\ (cash == 200 + flows)%Q.
Proof.
  assert (Z.of_nat 2 <= Assumptions.years (main_assumptions 2 0.06)) as H by (cbn; lia).
  split; [exact H|].
  destruct (stocks_accumulate_flows (small_company 1000) (main_assumptions 2 0.06) 2 H)
    as (cash & equity & debt & flows & income & financing & Hc & _ & _ & Hf & _ & _ & Heq & _).
  exists cash, flows. split; [exact Hc|]. split; [exact Hf | exact Heq].
Defined.

(** ** The unit of account *)

Lemma maxQ_scale (c x x' : Q) :
  (0 <= c)%Q -> (x' == c * x)%Q -> (maxQ 0 x' == c * maxQ 0 x)%Q.
Proof.
  intros Hc Hx.
  destruct (maxQ_cases 0 x) as [[H ->]|[H ->]];
    destruct (maxQ_cases 0 x') as [[H' ->]|[H' ->]]; try Lqa.lra; Lqa.nra.
Qed.

Lemma after_scaled (c : Q) b a (j k : nat) :
  (0 <= c)%Q -> (j <= k)%nat ->
  let y := BaseYear.year b + Z.of_nat j in
  scaled_IS c (loc (IS (after b a k)) y) (loc (IS (after (rescale c b) a k)) y)
  /\ scaled_BS c (loc (BS (after b a k)) y) (loc (BS (after (rescale c b) a k)) y)
  /\ scaled_CF c (loc (CF (after b a k)) y) (loc (CF (after (rescale c b) a k)) y).
Proof.
  intros Hc. induction j as [|j IH]; intros Hjk y; subst y.
  - destruct (after_base_rows b a k) as (-> & -> & ->).
    pose proof (after_base_rows (rescale c b) a k) as H. cbn [rescale BaseYear.year] in H.
    destruct H as (-> & -> & ->).
    unfold scaled_IS, scaled_BS, scaled_CF, seeded_IS, seeded_BS, scaled.
    cbn. repeat split; try reflexivity. Lqa.lra.
  - destruct IH as ((HR & _ & _) & (HC & HD & HE & HA) & _); [lia|].
    destruct (after_rows b a j k Hjk)
      as (r0 & c0 & d0 & e0 & a0 & Hr & Hc0 & Hd & He & Ha & H1 & H2 & H3 & _).
    pose proof (after_rows (rescale c b) a j k Hjk) as H'.
    cbn [rescale BaseYear.year] in H'.
    destruct H' as (r0' & c0' & d0' & e0' & a0' & Hr' & Hc0' & Hd' & He' & Ha'
                    & H1' & H2' & H3' & _).
    cbv zeta in *.
    rewrite Hr, Hr' in HR. rewrite Hc0, Hc0' in HC. rewrite Hd, Hd' in HD.
    rewrite He, He' in HE. rewrite Ha, Ha' in HA. unfold scaled in HR, HC, HD, HE, HA.
    rewrite H1, H2, H3, H1', H2', H3'.
    set (g := Assumptions.revenue_growth a) in *.
    set (m := (1 - Assumptions.cogs_pct_rev a - Assumptions.sga_pct_rev a
               - Assumptions.da_pct_rev a)%Q) in *.
    set (i := Assumptions.interest_pct_debt a) in *.
    set (t := Assumptions.tax_rate a) in *.
    set (x := Assumptions.capex_pct_rev a) in *.
    set (p := Assumptions.target_debt_pct_assets a) in *.
    assert (maxQ 0 ((r0' * (1 + g) * m - d0' * i) * t)
            == c * maxQ 0 ((r0 * (1 + g) * m - d0 * i) * t))%Q as Htax.
    { apply maxQ_scale; [done|]. rewrite HR, HD. ring. }
    unfold scaled_IS, scaled_BS, scaled_CF, scaled.
    cbn [Revenue EBIT Net_Income Cash Debt Equity Assets CFO CFI CFF dCash].
    set (T := maxQ 0 ((r0 * (1 + g) * m - d0 * i) * t)) in *.
    set (T' := maxQ 0 ((r0' * (1 + g) * m - d0' * i) * t)) in *.
    clearbody T T'.
    repeat split; rewrite ?Htax, ?HR, ?HC, ?HD, ?HE, ?HA; ring.
Qed.

(** X8.  The forecast does not depend on the unit of account: multiplying
    every amount of the base year by some [c >= 0] (thousands instead of
    millions, say) leaves the index as it is and multiplies every cell of the
    three returned tables by [c]; NaN cells stay NaN. *)
Theorem forecast_is_scale_free (c : Q) (b : BaseYear.t) (a : Assumptions.t) (y : Z) :
  (0 <= c)%Q ->
  In y (index (tIS (forecast b a))) ->
  let t := forecast b a in
  let t' := forecast (rescale c b) a in
  index (tIS t') = index (tIS t)
  /\ scaled_IS c (loc (tIS t) y) (loc (tIS t') y)
  /\ scaled_BS c (loc (tBS t) y) (loc (tBS t') y)
  /\ scaled_CF c (loc (tCF t) y) (loc (tCF t') y).
Proof.
  intros Hc Hy t t'. subst t t'.
  destruct (forecast_index b a) as (HI & _).
  destruct (forecast_index (rescale c b) a) as (HI' & _).
  rewrite HI in Hy |- *. rewrite HI'. split; [reflexivity|].
  apply list_elem_of_In, elem_of_years in Hy as (j & Hj & ->).
  destruct (forecast_tables b a) as (-> & -> & ->).
  destruct (forecast_tables (rescale c b) a) as (-> & -> & ->).
  rewrite !run_after. by apply after_scaled.
Qed.

Lemma forecast_is_scale_free_witness :
  (0 <= 1000)%Q
  /\ In 2024 (index (tIS (forecast base_2023 assumptions_1y)))
  /\ scaled_IS 1000 (loc (tIS (forecast base_2023 assumptions_1y)) 2024)
       (loc (tIS (forecast (rescale 1000 base_2023) assumptions_1y)) 2024).
Proof.
  assert (0 <= 1000)%Q as H1 by done.
  assert (In 2024 (index (tIS (forecast base_2023 assumptions_1y)))) as H2
    by (vm_compute; right; left; reflexivity).
  split; [exact H1|]. split; [exact H2|].
  apply (forecast_is_scale_free 1000 base_2023 assumptions_1y 2024 H1 H2).
Defined.

(** * More about the normalizer *)

(** ** Concepts that the filing does not report *)

(** X9.  When the normalizer produces a base year from a filing without annual
    USD records for total assets, cash, receivables, inventory and PP&E, then
    cash, receivables, inventory and PP&E are 0.0 and both other-asset buckets
    are zero. *)
Theorem missing_balance_sheet_gives_zeros (f : CompanyFacts) (b : BaseYear.t) :
  build_base_year_from_sec f = Ok b ->
  (forall tag : string, In tag asset_concepts -> annual_records f tag = []) ->
  BaseYear.cash b = 0.0%Q
  /\ BaseYear.ar b = 0.0%Q
  /\ BaseYear.inventory b = 0.0%Q
  /\ BaseYear.ppe_net b = 0.0%Q
  /\ (BaseYear.other_current_assets b == 0)%Q
  /\ (BaseYear.other_noncurrent_assets b == 0)%Q.
Proof.
  intros Hb Habs.
  destruct (build_inv f b Hb)
    as (assets & liabilities & equity & _ & _ & _ & _ & _ & _ & HA & _ & Hc & Har & Hinv
        & Hppe & _ & _ & _ & _ & _ & _ & _ & Hoca & Honca & _).
  rewrite get_absent in HA, Hc, Har, Hinv, Hppe
    by (apply Habs; unfold asset_concepts; cbn [In]; tauto).
  injection HA as <-. injection Hc as Hc. injection Har as Har.
  injection Hinv as Hinv. injection Hppe as Hppe.
  rewrite Hoca, Honca, <- Hc, <- Har, <- Hinv, <- Hppe.
  repeat split; vm_compute; reflexivity.
Qed.

Lemma missing_balance_sheet_gives_zeros_witness :
  exists b : BaseYear.t,
    build_base_year_from_sec revenue_only = Ok b
    /\ (forall tag : string, In tag asset_concepts -> annual_records revenue_only tag = [])
    /\ BaseYear.cash b = 0.0%Q
    /\ (BaseYear.other_current_assets b == 0)%Q.
Proof.
  destruct (build_base_year_from_sec revenue_only) as [b|e] eqn:Hb;
    [|exfalso; vm_compute in Hb; discriminate].
  exists b. split; [reflexivity|].
  assert (forall tag : string, In tag asset_concepts -> annual_records revenue_only tag = [])
    as Habs.
  { intros tag Htag. unfold asset_concepts in Htag. cbn [In] in Htag.
    repeat (destruct Htag as [<-|Htag]; [vm_compute; reflexivity|]). destruct Htag. }
  split; [exact Habs|].
  destruct (missing_balance_sheet_gives_zeros revenue_only b Hb Habs)
    as (H1 & _ & _ & _ & H5 & _).
  by split.
Defined.

(** ** Reported equity *)

(** X10.  When the normalizer produces a base year and the latest annual
    record of stockholders' equity has a value other than zero, that value is
    the common equity of the base year: the fallback to assets minus liabilities
    is not taken. *)
Theorem reported_equity_is_kept (f : CompanyFacts) (b : BaseYear.t) (year : Z) (v : Q) :
  build_base_year_from_sec f = Ok b ->
  pick_latest_annual_usd f "StockholdersEquity" = Ok (Some (year, v)) ->
  ~ (v == 0)%Q ->
  BaseYear.common_equity b = v.
Proof.
  intros Hb Hpick Hnz. destruct (build_inv f b Hb) as (assets & liabilities & equity & H).
  assert (get f "StockholdersEquity" = Ok equity) as Hget by apply H.
  assert (BaseYear.common_equity b = or_else equity (assets - liabilities)%Q) as -> by apply H.
  unfold get in Hget. rewrite Hpick in Hget. cbn [bind] in Hget. injection Hget as <-.
  unfold or_else. destruct (Qeq_bool v 0) eqn:Hz; [|done].
  by apply Qeq_bool_iff in Hz.
Qed.

Lemma reported_equity_is_kept_witness :
  exists b : BaseYear.t,
    build_base_year_from_sec filing_2023_restated = Ok b
    /\ pick_latest_annual_usd filing_2023_restated "StockholdersEquity"
       = Ok (Some (2023, 26%Q))
    /\ BaseYear.common_equity b = 26%Q.
Proof.
  destruct (build_base_year_from_sec filing_2023_restated) as [b|e] eqn:Hb;
    [|exfalso; vm_compute in Hb; discriminate].
  assert (pick_latest_annual_usd filing_2023_restated "StockholdersEquity"
          = Ok (Some (2023, 26%Q))) as Hpick by (vm_compute; reflexivity).
  exists b. split; [reflexivity|]. split; [exact Hpick|].
  apply (reported_equity_is_kept filing_2023_restated b 2023 26%Q Hb Hpick).
  intros H. vm_compute in H. discriminate.
Defined.

(** ** The residual buckets *)

(** X11.  In every base year that the normalizer produces, none of the four
    residual buckets (other current and other non-current assets, other current
    and other non-current liabilities) is negative.  When reported total assets
    are at least cash + receivables + inventory + PP&E, these four and the two
    other-asset buckets add up to the reported total; when they are at most
    that sum, both other-asset buckets are zero.  The same holds for
    liabilities with payables, accrued liabilities and long-term debt and the
    two other-liability buckets. *)
Theorem residuals_complete_the_totals (f : CompanyFacts) (b : BaseYear.t) :
  build_base_year_from_sec f = Ok b ->
  exists assets liabilities : Q,
    get f "Assets" = Ok assets
    /\ get f "Liabilities" = Ok liabilities
    /\ let known_assets := (BaseYear.cash b + BaseYear.ar b + BaseYear.inventory b
                            + BaseYear.ppe_net b)%Q in
       let known_liabilities := (BaseYear.ap b + BaseYear.accrued_liabilities b
                                 + BaseYear.long_term_debt b)%Q in
       (0 <= BaseYear.other_current_assets b)%Q
       /\ (0 <= BaseYear.other_noncurrent_assets b)%Q
       /\ (0 <= BaseYear.other_current_liabilities b)%Q
       /\ (0 <= BaseYear.other_noncurrent_liabilities b)%Q
       /\ ((known_assets <= assets)%Q ->
           (known_assets + BaseYear.other_current_assets b
            + BaseYear.other_noncurrent_assets b == assets)%Q)
       /\ ((assets <= known_assets)%Q ->
           (BaseYear.other_current_assets b == 0)%Q
           /\ (BaseYear.other_noncurrent_assets b == 0)%Q)
       /\ ((known_liabilities <= liabilities)%Q ->
           (known_liabilities + BaseYear.other_current_liabilities b
            + BaseYear.other_noncurrent_liabilities b == liabilities)%Q)
       /\ ((liabilities <= known_liabilities)%Q ->
           (BaseYear.other_current_liabilities b == 0)%Q
           /\ (BaseYear.other_noncurrent_liabilities b == 0)%Q).
Proof.
  intros Hb.
  destruct (build_inv f b Hb)
    as (assets & liabilities & equity & _ & _ & _ & _ & _ & _ & HA & HL & _ & _ & _
        & _ & _ & _ & _ & _ & _ & _ & _ & Hoca & Honca & Hocl & Honcl).
  exists assets, liabilities. split; [done|]. split; [done|]. cbv zeta.
  rewrite Hoca, Honca, Hocl, Honcl.
  set (ka := (BaseYear.cash b + BaseYear.ar b + BaseYear.inventory b
              + BaseYear.ppe_net b)%Q).
  set (kl := (BaseYear.ap b + BaseYear.accrued_liabilities b
              + BaseYear.long_term_debt b)%Q).
  destruct (maxQ_cases 0.0 (assets - ka)) as [[Ha ->]|[Ha ->]];
    destruct (maxQ_cases 0.0 (liabilities - kl)) as [[Hl ->]|[Hl ->]];
    repeat split; intros; Lqa.lra.
Qed.

Lemma residuals_complete_the_totals_witness :
  exists b : BaseYear.t,
    build_base_year_from_sec filing_2023 = Ok b
    /\ (0 <= BaseYear.other_current_assets b)%Q
    /\ (0 <= BaseYear.other_noncurrent_assets b)%Q
    /\ (0 <= BaseYear.other_current_liabilities b)%Q
    /\ (0 <= BaseYear.other_noncurrent_liabilities b)%Q.
Proof.
  destruct (build_base_year_from_sec filing_2023) as [b|e] eqn:Hb;
    [|exfalso; vm_compute in Hb; discriminate].
  exists b. split; [reflexivity|].
  destruct (residuals_complete_the_totals filing_2023 b Hb)
    as (assets & liabilities & _ & _ & H1 & H2 & H3 & H4 & _).
  split; [exact H1|]. split; [exact H2|]. split; [exact H3 | exact H4].
Defined.

(** ** What the normalizer reads *)

Lemma pick_annual_records f f' tag :
  annual_records f tag = annual_records f' tag ->
  pick_latest_annual_usd f tag = pick_latest_annual_usd f' tag.
Proof.
  intros Heq. destruct (annual_records f tag) as [|x l] eqn:Ha.
  - rewrite (pick_absent f tag Ha). symmetry. by apply pick_absent.
  - rewrite (pick_present f tag x l Ha). symmetry. by apply pick_present.
Qed.

(** X12.  The outcome of the normalizer, base year or exception, depends on
    the filing only through the annual USD records of the sixteen concepts it
    looks up: two filings with the same such records, in the same order, give
    the same outcome, whatever else they report (other concepts, other units,
    records of other periods). *)
Theorem normalizer_reads_annual_usd_only (f f' : CompanyFacts) :
  (forall tag : string, In tag concepts -> annual_records f tag = annual_records f' tag) ->
  build_base_year_from_sec f = build_base_year_from_sec f'.
Proof.
  intros Hsame.
  assert (forall tag, In tag concepts -> get f tag = get f' tag) as Hget.
  { intros tag Htag. unfold get. by rewrite (pick_annual_records f f' tag (Hsame tag Htag)). }
  assert (base_year f = base_year f') as Hyear.
  { unfold base_year. rewrite (pick_annual_records f f' "Revenues"); [done|].
    apply Hsame. unfold concepts. cbn [In]. tauto. }
  unfold build_base_year_from_sec.
  rewrite Hyear, !Hget by (unfold concepts; cbn [In]; tauto).
  reflexivity.
Qed.

Lemma normalizer_reads_annual_usd_only_witness :
  (forall tag : string,
     In tag concepts ->
     annual_records filing_2023_verbose tag = annual_records filing_2023 tag)
  /\ build_base_year_from_sec filing_2023_verbose = build_base_year_from_sec filing_2023.
Proof.
  assert (forall tag : string,
            In tag concepts ->
            annual_records filing_2023_verbose tag = annual_records filing_2023 tag) as H.
  { intros tag Htag. unfold concepts in Htag. cbn [In] in Htag.
    repeat (destruct Htag as [<-|Htag]; [vm_compute; reflexivity|]). destruct Htag. }
  split; [exact H|].
  exact (normalizer_reads_annual_usd_only filing_2023_verbose filing_2023 H).
Defined.

(** ** The order of the records *)

Lemma key_le_antisym (a b : string * string) : key_le a b -> key_le b a -> a = b.
Proof.
  intros [Hab|Hab]%key_le_spec [Hba|Hba]%key_le_spec; try done.
  destruct (key_lt_irrefl a). by apply (key_lt_trans _ b).
Qed.

(** The record that the scan keeps has the greatest key of the list. *)
Lemma scan_greatest (l : list Fact) (m : Fact) :
  In (fold_left later_wins l m) (m :: l)
  /\ forall u : Fact, In u (m :: l) -> key_le (key u) (key (fold_left later_wins l m)).
Proof.
  destruct (scan_split l m) as (pre & post & Heq & Hpre & Hpost).
  split; [rewrite Heq; apply in_elt|].
  intros u Hu. rewrite Heq in Hu. apply in_app_or in Hu as [Hu|[<-|Hu]].
  - rewrite Forall_forall in Hpre. by apply Hpre, list_elem_of_In.
  - apply key_le_refl.
  - rewrite Forall_forall in Hpost. by apply key_lt_le, Hpost, list_elem_of_In.
Qed.

(** X13.  When no two annual records of a concept share their (end, filed)
    pair, the order in which the filing lists the records does not matter: two
    filings with the same USD records under the tag, in any order, give the
    same result of [pick_latest_annual_usd]. *)
Theorem order_of_records_is_irrelevant
    (f f' : CompanyFacts) (tag : string) (items items' : list Fact) :
  reported_usd f tag items ->
  reported_usd f' tag items' ->
  (forall x : Fact, In x items <-> In x items') ->
  (forall x y : Fact,
     In x items -> In y items ->
     fp x = Some "FY"%string -> fp y = Some "FY"%string ->
     key x = key y -> x = y) ->
  pick_latest_annual_usd f tag = pick_latest_annual_usd f' tag.
Proof.
  intros Hf%usd_items_Some Hf'%usd_items_Some Hsame Hinj.
  assert (annual_records f tag = List.filter is_annual items) as Ha
    by (unfold annual_records; by rewrite Hf).
  assert (annual_records f' tag = List.filter is_annual items') as Ha'
    by (unfold annual_records; by rewrite Hf').
  assert (forall x, In x (List.filter is_annual items)
                    <-> In x (List.filter is_annual items')) as Hsame'.
  { intros x. rewrite !filter_In, Hsame. done. }
  destruct (List.filter is_annual items) as [|x l] eqn:HL;
    destruct (List.filter is_annual items') as [|x' l'] eqn:HL'.
  - by rewrite (pick_absent f tag Ha), (pick_absent f' tag Ha').
  - destruct (proj2 (Hsame' x')); by left.
  - destruct (proj1 (Hsame' x)); by left.
  - rewrite (pick_present f tag x l Ha), (pick_present f' tag x' l' Ha'), !last_sorted.
    destruct (scan_greatest l x) as (Hin & Hmax).
    destruct (scan_greatest l' x') as (Hin' & Hmax').
    set (m := fold_left later_wins l x) in *.
    set (m' := fold_left later_wins l' x') in *.
    assert (m = m') as ->; [|done].
    assert (In m (List.filter is_annual items)) as Hm by (by rewrite HL).
    assert (In m' (List.filter is_annual items)) as Hm'.
    { rewrite HL. apply Hsame'. exact Hin'. }
    apply filter_In in Hm as (Hm1 & Hm2%is_annual_spec).
    apply filter_In in Hm' as (Hm1' & Hm2'%is_annual_spec).
    apply Hinj; try done.
    apply key_le_antisym.
    + apply Hmax'. apply Hsame'. exact Hin.
    + apply Hmax. apply Hsame'. exact Hin'.
Qed.

Lemma order_of_records_is_irrelevant_witness :
  pick_latest_annual_usd
    (document [("Revenues"%string, [revenue_2022; revenue_2023])]) "Revenues"
  = pick_latest_annual_usd
      (document [("Revenues"%string, [revenue_2023; revenue_2022])]) "Revenues".
Proof.
  apply (order_of_records_is_irrelevant _ _ _
           [revenue_2022; revenue_2023] [revenue_2023; revenue_2022]).
  - apply usd_items_Some. vm_compute. reflexivity.
  - apply usd_items_Some. vm_compute. reflexivity.
  - intros x. cbn [In]. tauto.
  - intros x y Hx Hy _ _ Hk. cbn [In] in Hx, Hy.
    destruct Hx as [<-|[<-|[]]]; destruct Hy as [<-|[<-|[]]];
      first [reflexivity | vm_compute in Hk; discriminate].
Defined.

(** ** Whitespace around an integer literal *)

Lemma int_space_is_space (c : ascii) : is_int_space c = true -> is_space c = true.
Proof.
  unfold is_int_space, is_space. cbv zeta.
  repeat match goal with
         | |- context [(?x <=? ?y)%N] => destruct (N.leb_spec x y)
         | |- context [(?x =? ?y)%N] => destruct (N.eqb_spec x y)
         end; cbn; try done; lia.
Qed.

Lemma not_space_not_int_space (c : ascii) : is_space c = false -> is_int_space c = false.
Proof.
  intros Hc. destruct (is_int_space c) eqn:H; [|done].
  apply int_space_is_space in H. congruence.
Qed.

Lemma int_lstrip_head (c : ascii) (l : list ascii) :
  is_int_space c = false -> int_lstrip (c :: l) = c :: l.
Proof. intros Hc. cbn [int_lstrip]. by rewrite Hc. Qed.

Lemma int_lstrip_snoc (l : list ascii) (c : ascii) :
  is_int_space c = false -> exists u : list ascii, int_lstrip (l ++ [c]) = u ++ [c].
Proof.
  intros Hc. induction l as [|x l (u & IH)]; cbn [app int_lstrip].
  - rewrite Hc. by exists [].
  - destruct (is_int_space x); [by exists u|]. by exists (x :: l).
Qed.

(** [int] keeps a first character that is not whitespace to it. *)
Lemma int_strip_head (c : ascii) (l : list ascii) :
  is_int_space c = false -> exists t : list ascii, int_strip (c :: l) = c :: t.
Proof.
  intros Hc. unfold int_strip. rewrite (int_lstrip_head c l Hc). cbn [rev].
  destruct (int_lstrip_snoc (rev l) c Hc) as (u & ->).
  exists (rev u). by rewrite rev_app_distr.
Qed.

Lemma last_cons_rev {A : Type} (x : A) (l : list A) :
  exists r : list A, rev (x :: l) = List.last (x :: l) x :: r.
Proof.
  destruct (rev (x :: l)) as [|y r] eqn:Hrev.
  { apply (f_equal (@List.length A)) in Hrev. rewrite length_rev in Hrev. done. }
  exists r. f_equal.
  apply (f_equal (@rev A)) in Hrev. rewrite rev_involutive in Hrev.
  rewrite Hrev. cbn [rev]. by rewrite last_last.
Qed.

Lemma int_strip_trimmed (l : list ascii) : trimmed l -> int_strip l = l.
Proof.
  unfold trimmed, int_strip. destruct l as [|c l]; [done|].
  intros [Hc%not_space_not_int_space Hlast%not_space_not_int_space].
  rewrite (int_lstrip_head c l Hc).
  destruct (last_cons_rev c l) as (r & Hrev). rewrite Hrev.
  rewrite (int_lstrip_head _ r Hlast). rewrite <- Hrev. apply rev_involutive.
Qed.

Lemma trimmed_nonspace (l : list ascii) :
  Forall (fun c => is_space c = false) l -> trimmed l.
Proof.
  intros Hl. unfold trimmed. destruct l as [|c l]; [done|].
  split; [by apply Forall_cons in Hl as [Hc _]|].
  rewrite Forall_forall in Hl. apply Hl, list_elem_of_In.
  destruct (last_cons_rev c l) as (r & Hrev).
  apply in_rev. rewrite Hrev. by left.
Qed.

Lemma int_strip_nonspace (l : list ascii) :
  Forall (fun c => is_space c = false) l -> int_strip l = l.
Proof. intros Hl. by apply int_strip_trimmed, trimmed_nonspace. Qed.

Lemma int_lstrip_app_spaces (ws l : list ascii) :
  int_whitespace ws -> int_lstrip (ws ++ l) = int_lstrip l.
Proof.
  unfold int_whitespace. induction 1 as [|c ws Hc _ IH]; [done|].
  cbn [app int_lstrip]. by rewrite Hc.
Qed.

Lemma int_whitespace_rev (l : list ascii) : int_whitespace l -> int_whitespace (rev l).
Proof.
  unfold int_whitespace. rewrite !Forall_forall. intros Hl c Hc.
  apply Hl, list_elem_of_In, in_rev, list_elem_of_In, Hc.
Qed.

(** [int] sees the text between the whitespace it skips. *)
Lemma int_strip_padded (pre text post : list ascii) :
  int_whitespace pre -> int_whitespace post -> trimmed text ->
  int_strip (pre ++ text ++ post) = text.
Proof.
  intros Hpre Hpost Ht. unfold int_strip. rewrite int_lstrip_app_spaces by done.
  destruct text as [|c t].
  - cbn [app]. rewrite <- (app_nil_r post), int_lstrip_app_spaces by done.
    reflexivity.
  - destruct Ht as [Hc%not_space_not_int_space Hlast%not_space_not_int_space].
    change ((c :: t) ++ post) with (c :: (t ++ post)).
    rewrite (int_lstrip_head c _ Hc).
    change (c :: (t ++ post)) with ((c :: t) ++ post).
    rewrite rev_app_distr, int_lstrip_app_spaces by (by apply int_whitespace_rev).
    destruct (last_cons_rev c t) as (r & Hrev). rewrite Hrev.
    rewrite (int_lstrip_head _ r Hlast), <- Hrev. apply rev_involutive.
Qed.

(** What is not whitespace to [int] is kept. *)
Lemma int_lstrip_keeps (c : ascii) (l : list ascii) :
  In c l -> is_int_space c = false -> In c (int_lstrip l).
Proof.
  intros Hin Hc. induction l as [|x l IH]; [done|].
  cbn [int_lstrip]. destruct (is_int_space x) eqn:Hx; [|done].
  destruct Hin as [->|Hin]; [congruence|]. by apply IH.
Qed.

Lemma int_strip_keeps (c : ascii) (l : list ascii) :
  In c l -> is_int_space c = false -> In c (int_strip l).
Proof.
  intros Hin Hc. unfold int_strip.
  apply in_rev. rewrite rev_involutive.
  apply int_lstrip_keeps; [|done]. apply in_rev. rewrite rev_involutive.
  by apply int_lstrip_keeps.
Qed.

Lemma space_not_literal (c : ascii) :
  is_space c = true ->
  digit c = None /\ c <> "_"%char /\ c <> "+"%char /\ c <> "-"%char.
Proof. destruct c as [[] [] [] [] [] [] [] []]; cbn; intros H; repeat split; done. Qed.

Lemma digits_stray (c : ascii) (l : list ascii) (acc : Z) (b : bool) :
  In c l -> digit c = None -> c <> "_"%char -> digits l acc b = None.
Proof.
  intros Hin Hd Hu. revert acc b. induction l as [|x l IH]; intros acc b; [done|].
  cbn [digits]. destruct Hin as [->|Hin].
  - rewrite Hd. destruct (Ascii.eqb_spec c "_"); [done|]. reflexivity.
  - destruct (digit x); [by apply IH|].
    destruct (Ascii.eqb x "_" && b); [by apply IH | reflexivity].
Qed.

(** A separator that [int] does not skip makes it raise. *)
Lemma int_stray_space (c : ascii) (s : string) :
  In c (list_ascii_of_string s) -> is_space c = true -> is_int_space c = false ->
  int s = Raise ValueError.
Proof.
  intros Hin Hsp Hc. destruct (space_not_literal c Hsp) as (Hd & Hu & Hplus & Hminus).
  pose proof (int_strip_keeps c _ Hin Hc) as Hin'.
  unfold int. destruct (int_strip (list_ascii_of_string s)) as [|x r]; [done|].
  assert (digits (x :: r) 0 false = None) as Hall by (by apply (digits_stray c)).
  destruct Hin' as [->|Hin'].
  - destruct c as [[] [] [] [] [] [] [] []]; try done; by rewrite Hall.
  - assert (digits r 0 false = None) as Hr by (by apply (digits_stray c)).
    destruct x as [[] [] [] [] [] [] [] []]; rewrite ?Hr, ?Hall; reflexivity.
Qed.

(** ** The fiscal year of a record *)

Lemma digit_char_cases (c : ascii) (d : Z) :
  digit c = Some d ->
  is_space c = false /\ c <> "+"%char /\ c <> "-"%char /\ c <> "_"%char /\ 0 <= d <= 9.
Proof.
  destruct c as [[] [] [] [] [] [] [] []]; cbn; intros [= <-]; repeat split; try done; lia.
Qed.

Lemma int_four_digits (c1 c2 c3 c4 : ascii) (d1 d2 d3 d4 : Z) :
  digit c1 = Some d1 -> digit c2 = Some d2 -> digit c3 = Some d3 -> digit c4 = Some d4 ->
  int (String c1 (String c2 (String c3 (String c4 EmptyString))))
  = Ok (1000 * d1 + 100 * d2 + 10 * d3 + d4).
Proof.
  intros H1 H2 H3 H4.
  destruct (digit_char_cases c1 d1 H1) as (S1 & P1 & M1 & _).
  destruct (digit_char_cases c2 d2 H2) as (S2 & _).
  destruct (digit_char_cases c3 d3 H3) as (S3 & _).
  destruct (digit_char_cases c4 d4 H4) as (S4 & _).
  unfold int. cbn [list_ascii_of_string].
  assert (int_strip [c1; c2; c3; c4] = [c1; c2; c3; c4]) as ->
    by (apply int_strip_nonspace; by repeat constructor).
  assert (digits [c1; c2; c3; c4] 0 false = Some (1000 * d1 + 100 * d2 + 10 * d3 + d4)) as Hd.
  { cbn [digits]. rewrite H1, H2, H3, H4. f_equal. lia. }
  destruct c1 as [[] [] [] [] [] [] [] []]; try done; by rewrite Hd.
Qed.

(** X14.  The year that line 104 gives to a record: its "fy" when that is
    present and not zero.  Otherwise, when the record has no "end", the year is
    0 (from the default "0000"); when its "end" is the empty string, the call
    raises ValueError; when its "end" starts with four decimal digits, the
    year is the number they spell, whatever follows them; and when its "end"
    starts with a character that is not a digit, not a sign and not whitespace
    that [int] skips (a letter, or a separator U+001C to U+001F), the call
    raises ValueError. *)
Theorem year_of_a_record (latest : Fact) :
  (forall n : Z, fy latest = Some n -> n <> 0 -> year_of latest = Ok n)
  /\ ((fy latest = None \/ fy latest = Some 0) ->
      (end_ latest = None -> year_of latest = Ok 0)
      /\ (end_ latest = Some ""%string -> year_of latest = Raise ValueError)
      /\ (forall (c1 c2 c3 c4 : ascii) (rest : string) (d1 d2 d3 d4 : Z),
            end_ latest = Some (String c1 (String c2 (String c3 (String c4 rest)))) ->
            digit c1 = Some d1 -> digit c2 = Some d2 ->
            digit c3 = Some d3 -> digit c4 = Some d4 ->
            year_of latest = Ok (1000 * d1 + 100 * d2 + 10 * d3 + d4))
      /\ (forall (c : ascii) (rest : string),
            end_ latest = Some (String c rest) ->
            digit c = None -> c <> "+"%char -> c <> "-"%char ->
            is_int_space c = false ->
            year_of latest = Raise ValueError)).
Proof.
  split.
  - intros n Hfy Hn. unfold year_of. rewrite Hfy.
    destruct (Z.eqb_spec n 0); [done|reflexivity].
  - intros Hfy.
    assert (year_of latest = int (prefix 4 (default "0000"%string (end_ latest)))) as ->.
    { unfold year_of. by destruct Hfy as [-> | ->]. }
    split; [|split; [|split]].
    + intros ->. vm_compute. reflexivity.
    + intros ->. vm_compute. reflexivity.
    + intros c1 c2 c3 c4 rest d1 d2 d3 d4 -> H1 H2 H3 H4.
      cbn [default from_option id prefix]. by apply int_four_digits.
    + intros c rest -> Hd Hplus Hminus Hc.
      cbn [default from_option id prefix]. unfold int. cbn [list_ascii_of_string].
      match goal with
      | |- context [int_strip (c :: ?l)] =>
          destruct (int_strip_head c l Hc) as (t & ->)
      end.
      assert (digits (c :: t) 0 false = None) as Hall.
      { cbn [digits]. rewrite Hd. by rewrite andb_false_r. }
      destruct c as [[] [] [] [] [] [] [] []]; try done; by rewrite Hall.
Qed.

(** ** Where year and revenue come from *)




(** ** From the filing to the base-year row of the forecast *)

(** X16.  The normalizer and the forecast together: for a base year produced
    from a filing, the base-year Assets cell of the forecast is the reported
    total assets minus receivables and inventory when the reported total is at
    least cash + receivables + inventory + PP&E, and cash + PP&E when it is at
    most that sum. *)
Theorem base_year_assets_omit_working_capital
    (f : CompanyFacts) (b : BaseYear.t) (a : Assumptions.t) :
  build_base_year_from_sec f = Ok b ->
  exists reported shown : Q,
    get f "Assets" = Ok reported
    /\ Assets (loc (tBS (forecast b a)) (BaseYear.year b)) = Some shown
    /\ ((BaseYear.cash b + BaseYear.ar b + BaseYear.inventory b + BaseYear.ppe_net b
         <= reported)%Q ->
        (shown == reported - BaseYear.ar b - BaseYear.inventory b)%Q)
    /\ ((reported
         <= BaseYear.cash b + BaseYear.ar b + BaseYear.inventory b + BaseYear.ppe_net b)%Q ->
        (shown == BaseYear.cash b + BaseYear.ppe_net b)%Q).
Proof.
  intros Hb.
  destruct (build_inv f b Hb)
    as (assets & liabilities & equity & _ & _ & _ & _ & _ & _ & HA & _ & _ & _ & _
        & _ & _ & _ & _ & _ & _ & _ & _ & Hoca & Honca & _).
  destruct (forecast_tables b a) as (_ & -> & _).
  destruct (run_base_rows b a) as (_ & -> & _). cbn [seeded_BS Assets].
  exists assets. eexists. split; [done|]. split; [reflexivity|].
  rewrite Hoca, Honca.
  set (ka := (BaseYear.cash b + BaseYear.ar b + BaseYear.inventory b
              + BaseYear.ppe_net b)%Q).
  destruct (maxQ_cases 0.0 (assets - ka)) as [[Ha ->]|[Ha ->]];
    subst ka; split; intros; Lqa.lra.
Qed.

Lemma base_year_assets_omit_working_capital_witness :
  exists b : BaseYear.t,
    build_base_year_from_sec filing_2023 = Ok b
    /\ exists reported shown : Q,
         get filing_2023 "Assets" = Ok reported
         /\ Assets (loc (tBS (forecast b assumptions_1y)) (BaseYear.year b)) = Some shown.
Proof.
  destruct (build_base_year_from_sec filing_2023) as [b|e] eqn:Hb;
    [|exfalso; vm_compute in Hb; discriminate].
  exists b. split; [reflexivity|].
  destruct (base_year_assets_omit_working_capital filing_2023 b assumptions_1y Hb)
    as (reported & shown & H1 & H2 & _).
  exists reported, shown. split; [exact H1 | exact H2].
Defined.

(** * The ticker resolver *)

Import Resolver Prompt.

(** ** Decimal digits *)

Lemma uint_val_acc (d : Decimal.uint) (p : positive) :
  Z.pos (Pos.of_uint_acc d p) = uint_val d (Z.pos p).
Proof.
  revert p. induction d; intros p; cbn [Pos.of_uint_acc uint_val]; try done;
    rewrite IHd; f_equal; lia.
Qed.

Lemma uint_val_of_uint (d : Decimal.uint) : Z.of_N (N.of_uint d) = uint_val d 0.
Proof.
  unfold N.of_uint.
  induction d; cbn [Pos.of_uint uint_val]; try done; rewrite ?IHd; try done;
    cbn [Z.of_N]; rewrite uint_val_acc; f_equal.
Qed.

Lemma uint_val_decimal (n : Z) : 0 <= n -> uint_val (N.to_uint (Z.to_N n)) 0 = n.
Proof.
  intros Hn. rewrite <- uint_val_of_uint, DecimalN.Unsigned.of_to. lia.
Qed.

Lemma digits_uint (d : Decimal.uint) (rest : list ascii) (acc : Z) (b : bool) :
  digits (list_ascii_of_string (DecimalString.NilEmpty.string_of_uint d) ++ rest) acc b
  = digits rest (uint_val d acc)
      (match d with Decimal.Nil => b | _ => true end).
Proof.
  revert acc b. induction d; intros acc b;
    cbn [DecimalString.NilEmpty.string_of_uint list_ascii_of_string app uint_val];
    try done;
    cbn [digits]; (change (digit _) with (Some 0) || change (digit _) with (Some 1)
      || change (digit _) with (Some 2) || change (digit _) with (Some 3)
      || change (digit _) with (Some 4) || change (digit _) with (Some 5)
      || change (digit _) with (Some 6) || change (digit _) with (Some 7)
      || change (digit _) with (Some 8) || change (digit _) with (Some 9));
    cbv iota; rewrite IHd; by destruct d.
Qed.

Lemma lstrip_nonspace (l : list ascii) :
  Forall (fun c => is_space c = false) l -> lstrip l = l.
Proof. destruct 1 as [|c l Hc Hl]; [done|]. cbn [lstrip]. by rewrite Hc. Qed.

Lemma strip_nonspace (l : list ascii) :
  Forall (fun c => is_space c = false) l -> Sec.strip l = l.
Proof.
  intros Hl. unfold Sec.strip. rewrite (lstrip_nonspace l Hl).
  rewrite lstrip_nonspace; [apply rev_involutive|].
  apply Forall_forall. intros c Hc. rewrite Forall_forall in Hl.
  apply Hl. apply list_elem_of_In. apply list_elem_of_In in Hc. by apply in_rev.
Qed.

Lemma digit_not_space (c : ascii) : is_digit c -> is_space c = false.
Proof.
  unfold is_digit, digit, is_space. cbv zeta. intros [d Hd].
  destruct ((48 <=? N_of_ascii c)%N && (N_of_ascii c <=? 57)%N) eqn:H; [|done].
  apply andb_true_iff in H as [H1%N.leb_le H2%N.leb_le].
  repeat match goal with
         | |- context [(?x <=? ?y)%N] => destruct (N.leb_spec x y)
         | |- context [(?x =? ?y)%N] => destruct (N.eqb_spec x y)
         end; cbn; try done; lia.
Qed.

Lemma string_of_uint_digits (d : Decimal.uint) :
  Forall is_digit (list_ascii_of_string (DecimalString.NilEmpty.string_of_uint d)).
Proof.
  induction d; cbn [DecimalString.NilEmpty.string_of_uint list_ascii_of_string];
    constructor; try done; by eexists.
Qed.

Lemma to_uint_nonnil (n : N) : N.to_uint n <> Decimal.Nil.
Proof. destruct n; [done|]. apply DecimalPos.Unsigned.to_uint_nonnil. Qed.

Lemma decimal_eq (n : Z) :
  decimal n = DecimalString.NilEmpty.string_of_uint (N.to_uint (Z.to_N n)).
Proof.
  unfold decimal, DecimalString.NilZero.string_of_uint.
  pose proof (to_uint_nonnil (Z.to_N n)). by destruct (N.to_uint (Z.to_N n)).
Qed.

Lemma decimal_digits (n : Z) : Forall is_digit (list_ascii_of_string (decimal n)).
Proof. rewrite decimal_eq. apply string_of_uint_digits. Qed.

Lemma list_ascii_of_string_app (s t : string) :
  list_ascii_of_string (s ++ t) = list_ascii_of_string s ++ list_ascii_of_string t.
Proof.
  induction s as [|c s IH]; [done|].
  change (String c s +:+ t) with (String c (s +:+ t)).
  cbn [list_ascii_of_string app]. by rewrite IH.
Qed.

Lemma zfill_digits (w : nat) (s : string) :
  Forall is_digit (list_ascii_of_string s) ->
  Forall is_digit (list_ascii_of_string (zfill w s)).
Proof.
  intros Hs. unfold zfill. rewrite list_ascii_of_string_app, list_ascii_of_string_of_list_ascii.
  apply Forall_app. split; [|done].
  induction (w - String.length s)%nat; cbn [repeat]; constructor; [by eexists | done].
Qed.

Lemma digits_zeros (k : nat) (rest : list ascii) (b : bool) :
  digits (repeat "0"%char k ++ rest) 0 b
  = digits rest 0 (match k with O => b | _ => true end).
Proof.
  revert b. induction k as [|k IH]; intros b; [done|].
  cbn [repeat app digits]. change (digit "0") with (Some 0). cbv iota.
  change (10 * 0 + 0) with 0. rewrite IH. by destruct k.
Qed.

Lemma digits_zfill_decimal (w : nat) (n : Z) :
  0 <= n -> digits (list_ascii_of_string (zfill w (decimal n))) 0 false = Some n.
Proof.
  intros Hn. unfold zfill.
  rewrite list_ascii_of_string_app, list_ascii_of_string_of_list_ascii, digits_zeros.
  rewrite decimal_eq.
  rewrite <- (app_nil_r (list_ascii_of_string _)), digits_uint.
  pose proof (to_uint_nonnil (Z.to_N n)) as Hnn.
  rewrite (uint_val_decimal n Hn).
  by destruct (N.to_uint (Z.to_N n)).
Qed.

Lemma int_digits (s : string) :
  Forall is_digit (list_ascii_of_string s) ->
  int s = match digits (list_ascii_of_string s) 0 false with
          | Some n => Ok n
          | None => Raise ValueError
          end.
Proof.
  intros Hs. unfold int. rewrite int_strip_nonspace.
  - destruct (list_ascii_of_string s) as [|c l]; [done|].
    apply Forall_cons in Hs as [[d Hc] _].
    destruct c as [[] [] [] [] [] [] [] []]; try done.
  - eapply Forall_impl; [exact Hs|]. apply digit_not_space.
Qed.

Lemma int_format_010d (n : Z) : int (format_010d n) = Ok n.
Proof.
  unfold format_010d. destruct (Z.ltb_spec n 0) as [Hn|Hn].
  - unfold int. cbn [list_ascii_of_string].
    rewrite int_strip_nonspace.
    + rewrite digits_zfill_decimal by lia. cbn. f_equal. lia.
    + constructor; [done|]. eapply Forall_impl; [apply zfill_digits, decimal_digits|].
      apply digit_not_space.
  - rewrite int_digits by apply zfill_digits, decimal_digits.
    by rewrite digits_zfill_decimal.
Qed.

Lemma uint_val_lower (d : Decimal.uint) (acc : Z) :
  0 <= acc -> acc * 10 ^ Z.of_nat (Decimal.nb_digits d) <= uint_val d acc.
Proof.
  revert acc. induction d; intros acc Hacc; cbn [uint_val Decimal.nb_digits];
    [rewrite Z.pow_0_r; lia | ..];
    (etransitivity; [|apply IHd; lia]);
    rewrite Nat2Z.inj_succ, Z.pow_succ_r by lia;
    pose proof (Z.pow_nonneg 10 (Z.of_nat (Decimal.nb_digits d))); nia.
Qed.

Lemma nzhead_head (d : Decimal.uint) :
  match Decimal.nzhead d with
  | Decimal.D0 _ => False
  | _ => True
  end.
Proof. induction d; cbn [Decimal.nzhead]; done. Qed.

Lemma length_string_of_uint (d : Decimal.uint) :
  String.length (DecimalString.NilEmpty.string_of_uint d) = Decimal.nb_digits d.
Proof.
  induction d; cbn [DecimalString.NilEmpty.string_of_uint String.length Decimal.nb_digits];
    congruence.
Qed.

Lemma length_decimal (n : Z) (k : nat) :
  0 <= n < 10 ^ Z.of_nat (S k) -> (String.length (decimal n) <= S k)%nat.
Proof.
  intros Hn. rewrite decimal_eq, length_string_of_uint.
  pose proof (uint_val_decimal n (proj1 Hn)) as Hval.
  pose proof (DecimalN.Unsigned.to_of (N.to_uint (Z.to_N n))) as Hnorm.
  rewrite DecimalN.Unsigned.of_to in Hnorm.
  set (d := N.to_uint (Z.to_N n)) in *.
  unfold Decimal.unorm in Hnorm. pose proof (nzhead_head d) as Hhead.
  destruct (Decimal.nzhead d) as [|l|l|l|l|l|l|l|l|l|l] eqn:Hnz;
    try done; rewrite Hnorm; rewrite Hnorm in Hval;
    cbn [Decimal.nb_digits]; [lia|..];
    cbn [uint_val] in Hval;
    (destruct (Nat.le_gt_cases (Decimal.nb_digits l) k) as [|Hgt]; [lia|]);
    exfalso;
    match type of Hval with
    | uint_val l ?acc = n =>
        pose proof (uint_val_lower l acc ltac:(lia)) as Hlow
    end;
    pose proof (Z.pow_le_mono_r 10 (Z.of_nat (S k)) (Z.of_nat (Decimal.nb_digits l))
                  ltac:(lia) ltac:(lia));
    nia.
Qed.

Lemma length_append (s t : string) :
  String.length (s +:+ t) = (String.length s + String.length t)%nat.
Proof.
  induction s as [|c s IH]; [done|].
  change (String c s +:+ t) with (String c (s +:+ t)). cbn [String.length]. by rewrite IH.
Qed.

Lemma length_string_of_list_ascii (l : list ascii) :
  String.length (string_of_list_ascii l) = List.length l.
Proof. induction l as [|c l IH]; [done|]. cbn. by rewrite IH. Qed.

Lemma length_zfill (w : nat) (s : string) :
  String.length (zfill w s) = Nat.max w (String.length s).
Proof.
  unfold zfill. rewrite length_append, length_string_of_list_ascii, repeat_length. lia.
Qed.

Lemma decimal_nonempty (n : Z) : (1 <= String.length (decimal n))%nat.
Proof.
  rewrite decimal_eq, length_string_of_uint.
  pose proof (to_uint_nonnil (Z.to_N n)). destruct (N.to_uint (Z.to_N n)); cbn; try done; lia.
Qed.

(** ** The identifier *)

(** X18.  The identifier that [f"{n:010d}"] writes reads back: [int] of it is
    [n], for every integer [n], negative ones included; and it is never shorter
    than ten characters.  So different CIKs get different identifiers. *)
Theorem cik_reads_back (n : Z) :
  int (format_010d n) = Ok n /\ (10 <= String.length (format_010d n))%nat.
Proof.
  split; [apply int_format_010d|].
  unfold format_010d. destruct (n <? 0); cbn [String.length]; rewrite length_zfill; lia.
Qed.

(** X19.  For a CIK from 0 to 9999999999 the identifier has exactly ten
    characters, each of them a decimal digit. *)
Theorem cik_has_ten_digits (n : Z) :
  0 <= n < 10 ^ 10 ->
  String.length (format_010d n) = 10%nat
  /\ Forall is_digit (list_ascii_of_string (format_010d n)).
Proof.
  intros Hn. unfold format_010d. destruct (Z.ltb_spec n 0) as [|_]; [lia|].
  split; [|apply zfill_digits, decimal_digits].
  rewrite length_zfill. pose proof (length_decimal n 9 Hn). lia.
Qed.

Lemma cik_has_ten_digits_witness :
  0 <= 320193 < 10 ^ 10
  /\ String.length (format_010d 320193) = 10%nat
  /\ Forall is_digit (list_ascii_of_string (format_010d 320193)).
Proof.
  assert (0 <= 320193 < 10 ^ 10) as H by lia.
  split; [exact H | exact (cik_has_ten_digits 320193 H)].
Defined.

(** ** Looking a ticker up *)

(** X17.  [ticker_to_cik] on a fetched ticker map.  When no entry carries the
    ticker, case aside, the call raises ValueError.  Otherwise the first entry
    that carries it decides, whatever comes after it: the result is the
    identifier of its CIK, or KeyError when it has no "cik_str".  Two symbols
    with the same upper-case form get the same answer. *)
Theorem ticker_to_cik_spec (data : list (string * TickerRecord)) (symbol : string) :
  (Forall (fun entry => ~ matches symbol (snd entry)) data ->
   ticker_to_cik data symbol = Raise ValueError)
  /\ (forall (pre post : list (string * TickerRecord)) (k : string) (rec : TickerRecord),
        data = pre ++ (k, rec) :: post ->
        Forall (fun entry => ~ matches symbol (snd entry)) pre ->
        matches symbol rec ->
        ticker_to_cik data symbol
        = match cik_str rec with
          | Some n => Ok (format_010d n)
          | None => Raise KeyError
          end)
  /\ (forall symbol' : string,
        upper symbol' = upper symbol ->
        ticker_to_cik data symbol' = ticker_to_cik data symbol).
Proof.
  split; [|split].
  - induction 1 as [|[k rec] data Hrec _ IH]; [done|].
    cbn [ticker_to_cik]. cbn [snd] in Hrec. unfold matches in Hrec.
    by rewrite bool_decide_eq_false_2.
  - intros pre post k rec -> Hpre Hrec.
    induction Hpre as [|[k' rec'] pre Hrec' _ IH].
    + cbn [app ticker_to_cik]. unfold matches in Hrec.
      by rewrite bool_decide_eq_true_2.
    + cbn [app ticker_to_cik]. cbn [snd] in Hrec'. unfold matches in Hrec'.
      by rewrite bool_decide_eq_false_2.
  - intros symbol' Hup. induction data as [|[k rec] data IH]; [done|].
    cbn [ticker_to_cik]. by rewrite Hup, IH.
Qed.

(** * The prompts *)

(** ** Stripping *)

Lemma lstrip_split (l : list ascii) :
  exists pre : list ascii,
    l = pre ++ lstrip l
    /\ Forall (fun c => is_space c = true) pre
    /\ match lstrip l with c :: _ => is_space c = false | [] => True end.
Proof.
  induction l as [|c l (pre & Heq & Hpre & Hhd)]; [by exists []|].
  cbn [lstrip]. destruct (is_space c) eqn:Hc.
  - exists (c :: pre). cbn [app]. split; [congruence|]. split; [by constructor|done].
  - by exists [].
Qed.

Lemma lstrip_idem (l : list ascii) : lstrip (lstrip l) = lstrip l.
Proof.
  destruct (lstrip_split l) as (_ & _ & _ & Hhd).
  destruct (lstrip l) as [|c t]; [done|]. cbn [lstrip]. by rewrite Hhd.
Qed.

Lemma last_rev {A : Type} (l : list A) (x d : A) : List.last (rev (x :: l)) d = x.
Proof. cbn [rev]. apply last_last. Qed.

Lemma strip_split (l : list ascii) :
  exists pre post : list ascii,
    l = pre ++ Sec.strip l ++ post
    /\ Forall (fun c => is_space c = true) pre
    /\ Forall (fun c => is_space c = true) post
    /\ trimmed (Sec.strip l).
Proof.
  unfold Sec.strip.
  destruct (lstrip_split l) as (pre & Hl & Hpre & Ht).
  destruct (lstrip_split (rev (lstrip l))) as (post' & Hr & Hpost & Hu).
  set (t := lstrip l) in *. set (u := lstrip (rev t)) in *.
  assert (t = rev u ++ rev post') as Htu.
  { rewrite <- rev_app_distr, <- Hr. symmetry. apply rev_involutive. }
  exists pre, (rev post'). split; [by rewrite <- Htu|]. split; [done|]. split.
  - apply Forall_forall. intros c Hc. rewrite Forall_forall in Hpost. apply Hpost.
    apply list_elem_of_In. apply list_elem_of_In in Hc. by apply in_rev.
  - unfold trimmed. destruct u as [|c u]; [done|].
    destruct (rev (c :: u)) as [|c' r] eqn:Hrev.
    { apply (f_equal (@List.length ascii)) in Hrev. rewrite length_rev in Hrev. done. }
    split.
    + rewrite Htu in Ht. exact Ht.
    + rewrite <- Hrev. by rewrite last_rev.
Qed.

Lemma strip_trimmed (l : list ascii) : trimmed l -> Sec.strip l = l.
Proof.
  unfold trimmed, Sec.strip. destruct l as [|c l]; [done|]. intros [Hc Hlast].
  assert (lstrip (c :: l) = c :: l) as -> by (cbn [lstrip]; by rewrite Hc).
  destruct (rev (c :: l)) as [|c' r] eqn:Hrev.
  { apply (f_equal (@List.length ascii)) in Hrev. rewrite length_rev in Hrev. done. }
  assert (c' = List.last (c :: l) c) as ->.
  { apply (f_equal (@rev ascii)) in Hrev. rewrite rev_involutive in Hrev.
    rewrite Hrev. by rewrite last_rev. }
  cbn [lstrip]. rewrite Hlast. rewrite <- Hrev. apply rev_involutive.
Qed.

Lemma strip_idem (l : list ascii) : Sec.strip (Sec.strip l) = Sec.strip l.
Proof. destruct (strip_split l) as (_ & _ & _ & _ & _ & H). by apply strip_trimmed. Qed.

Lemma lstrip_spaces (l : list ascii) :
  Forall (fun c => is_space c = true) l -> lstrip l = [].
Proof. induction 1 as [|c l Hc _ IH]; [done|]. cbn [lstrip]. by rewrite Hc. Qed.

Lemma strip_blank (l : list ascii) :
  Sec.strip l = [] <-> Forall (fun c => is_space c = true) l.
Proof.
  split.
  - intros Hs. destruct (strip_split l) as (pre & post & Hl & Hpre & Hpost & _).
    rewrite Hs in Hl. rewrite Hl. cbn [app]. by apply Forall_app.
  - intros Hl. unfold Sec.strip. by rewrite (lstrip_spaces l Hl).
Qed.

Lemma string_eqb_empty (s : string) :
  String.eqb s "" = match list_ascii_of_string s with [] => true | _ => false end.
Proof. by destruct s. Qed.

Lemma prompt_strip_chars (s : string) :
  list_ascii_of_string (Prompt.strip s) = Sec.strip (list_ascii_of_string s).
Proof. unfold Prompt.strip. apply list_ascii_of_string_of_list_ascii. Qed.

Lemma blank_line_dec (s : string) : blank_line s \/ ~ blank_line s.
Proof.
  unfold blank_line, whitespace. rewrite <- strip_blank.
  destruct (Sec.strip (list_ascii_of_string s)); [by left | by right].
Qed.

Lemma strip_eqb_blank (line : string) :
  String.eqb (Prompt.strip line) "" = true <-> blank_line line.
Proof.
  rewrite string_eqb_empty, prompt_strip_chars. unfold blank_line, whitespace. rewrite <- strip_blank.
  by destruct (Sec.strip (list_ascii_of_string line)).
Qed.

(** X21.  [prompt_int]: on a line of nothing but whitespace (the empty line
    included) the answer is the default.  Any other line is some whitespace,
    a non-empty text that neither starts nor ends with whitespace, and some
    whitespace again, whitespace being what [str.strip] removes; the answer is
    what [int] makes of that text: the number, or ValueError.  [int] of the
    whole line gives the same when the whitespace around the text is of the
    kind that [int] skips; when a separator U+001C to U+001F is among it,
    [int] of the whole line raises ValueError, while the prompt still reads
    the text. *)
Theorem prompt_int_spec (label : string) (default : Z) (line : string) :
  (blank_line line -> prompt_int label default line = Ok default)
  /\ (~ blank_line line ->
      exists pre text post : list ascii,
        list_ascii_of_string line = pre ++ text ++ post
        /\ whitespace pre
        /\ whitespace post
        /\ trimmed text
        /\ text <> []
        /\ prompt_int label default line = int (string_of_list_ascii text)
        /\ (int_whitespace pre /\ int_whitespace post ->
            int line = int (string_of_list_ascii text))
        /\ (~ (int_whitespace pre /\ int_whitespace post) ->
            int line = Raise ValueError)).
Proof.
  unfold prompt_int. cbv zeta. pose proof (strip_eqb_blank line) as Hb.
  destruct (String.eqb (Prompt.strip line) "") eqn:He.
  { split; [done|]. intros Hn. destruct Hn. by apply Hb. }
  split; [intros H%Hb; done|]. intros _.
  destruct (strip_split (list_ascii_of_string line)) as (pre & post & Hl & Hpre & Hpost & Ht).
  exists pre, (Sec.strip (list_ascii_of_string line)), post.
  split; [done|]. split; [done|]. split; [done|]. split; [done|]. split.
  { intros Hs. rewrite string_eqb_empty, prompt_strip_chars, Hs in He. done. }
  split; [reflexivity|]. split.
  - intros [Hipre Hipost]. unfold int at 1 2.
    rewrite list_ascii_of_string_of_list_ascii.
    rewrite Hl at 1. rewrite (int_strip_padded _ _ _ Hipre Hipost Ht).
    by rewrite (int_strip_trimmed _ Ht).
  - intros Hnot.
    assert (exists c : ascii,
              In c (list_ascii_of_string line)
              /\ is_space c = true /\ is_int_space c = false) as (c & Hin & Hsp & Hc).
    { unfold int_whitespace in Hnot.
      destruct (decide (Forall (fun c => is_int_space c = true) pre)) as [Hp|Hp].
      - destruct (decide (Forall (fun c => is_int_space c = true) post)) as [Hq|Hq];
          [by destruct Hnot|].
        apply not_Forall_Exists in Hq; [|apply _].
        apply Exists_exists in Hq as (c & Hin%list_elem_of_In & Hc). cbn in Hc.
        exists c. split; [rewrite Hl; apply in_or_app; right; apply in_or_app; by right|].
        rewrite Forall_forall in Hpost. split; [by apply Hpost, list_elem_of_In|].
        by destruct (is_int_space c).
      - apply not_Forall_Exists in Hp; [|apply _].
        apply Exists_exists in Hp as (c & Hin%list_elem_of_In & Hc). cbn in Hc.
        exists c. split; [rewrite Hl; apply in_or_app; by left|].
        rewrite Forall_forall in Hpre. split; [by apply Hpre, list_elem_of_In|].
        by destruct (is_int_space c). }
    by apply (int_stray_space c).
Qed.

(** X20.  [prompt_str]: on a line of nothing but whitespace the answer is the
    default; on any other line it is the line without the whitespace at its two
    ends: a non-empty text that neither starts nor ends with whitespace. *)
Theorem prompt_str_spec (label default line : string) :
  (blank_line line -> prompt_str label default line = default)
  /\ (~ blank_line line ->
      exists pre post : list ascii,
        list_ascii_of_string line
        = pre ++ list_ascii_of_string (prompt_str label default line) ++ post
        /\ whitespace pre
        /\ whitespace post
        /\ trimmed (list_ascii_of_string (prompt_str label default line))
        /\ prompt_str label default line <> ""%string).
Proof.
  unfold prompt_str. cbv zeta. pose proof (strip_eqb_blank line) as Hb.
  destruct (String.eqb (Prompt.strip line) "") eqn:He.
  - split; [done|]. intros Hn. destruct Hn. by apply Hb.
  - split; [intros H%Hb; done|]. intros _.
    rewrite prompt_strip_chars.
    destruct (strip_split (list_ascii_of_string line)) as (pre & post & Hl & Hpre & Hpost & Ht).
    exists pre, post. repeat (split; [done|]).
    intros Hs. by rewrite Hs in He.
Qed.

Lemma lstrip_app_spaces (ws l : list ascii) :
  Forall (fun c => is_space c = true) ws -> lstrip (ws ++ l) = lstrip l.
Proof. induction 1 as [|c ws Hc _ IH]; [done|]. cbn [app lstrip]. by rewrite Hc. Qed.

Lemma strip_padded (ws1 l ws2 : list ascii) :
  Forall (fun c => is_space c = true) ws1 ->
  Forall (fun c => is_space c = true) ws2 ->
  Forall (fun c => is_space c = false) l ->
  Sec.strip (ws1 ++ l ++ ws2) = l.
Proof.
  intros H1 H2 Hl. unfold Sec.strip. rewrite lstrip_app_spaces by done.
  destruct l as [|c l].
  - cbn [app]. rewrite (lstrip_spaces ws2 H2). cbn [rev lstrip].
    reflexivity.
  - assert (lstrip ((c :: l) ++ ws2) = (c :: l) ++ ws2) as ->.
    { apply Forall_cons in Hl as [Hc _]. cbn [app lstrip]. by rewrite Hc. }
    rewrite rev_app_distr, lstrip_app_spaces.
    + rewrite lstrip_nonspace; [apply rev_involutive|].
      apply Forall_forall. intros x Hx. rewrite Forall_forall in Hl. apply Hl.
      apply list_elem_of_In. apply list_elem_of_In in Hx. by apply in_rev.
    + apply Forall_forall. intros x Hx. rewrite Forall_forall in H2. apply H2.
      apply list_elem_of_In. apply list_elem_of_In in Hx. by apply in_rev.
Qed.

(** X22.  A non-negative integer typed in decimal, with any whitespace before
    and after it, is read back as that integer. *)
Theorem prompt_int_reads_a_number
    (label : string) (default n : Z) (before after : list ascii) :
  0 <= n ->
  whitespace before ->
  whitespace after ->
  prompt_int label default
    (string_of_list_ascii (before ++ list_ascii_of_string (decimal n) ++ after))
  = Ok n.
Proof.
  unfold whitespace. intros Hn Hb Ha.
  pose proof (decimal_digits n) as Hd.
  assert (Forall (fun c => is_space c = false) (list_ascii_of_string (decimal n))) as Hns
    by (eapply Forall_impl; [exact Hd | apply digit_not_space]).
  unfold prompt_int. cbv zeta.
  assert (Prompt.strip (string_of_list_ascii
                          (before ++ list_ascii_of_string (decimal n) ++ after))
          = decimal n) as ->.
  { unfold Prompt.strip. rewrite list_ascii_of_string_of_list_ascii, strip_padded by done.
    apply string_of_list_ascii_of_string. }
  rewrite string_eqb_empty.
  pose proof (decimal_nonempty n) as Hlen.
  destruct (list_ascii_of_string (decimal n)) as [|c l] eqn:Hl.
  { apply (f_equal string_of_list_ascii) in Hl.
    rewrite string_of_list_ascii_of_string in Hl. rewrite Hl in Hlen. cbn in Hlen. lia. }
  rewrite int_digits by (by rewrite Hl).
  change (decimal n) with (zfill 0 (decimal n)) at 1.
  by rewrite digits_zfill_decimal.
Qed.

Lemma prompt_int_reads_a_number_witness :
  prompt_int "Forecast years" 5 " 12 " = Ok 12.
Proof.
  apply (prompt_int_reads_a_number "Forecast years" 5 12 [" "%char] [" "%char]).
  - lia.
  - by repeat constructor.
  - by repeat constructor.
Defined.

(** ** The percentage prompt *)

Section PctFacts.
Variable float : string -> result num.

(** X23.  [prompt_pct], whatever [float] makes of strings: on a blank line the
    answer is the default.  On any other line an exception of [float] is the
    exception of the call and NaN is returned as NaN; a number [x] at most 1 is
    returned as it is, negative numbers included, and a number above 1 is
    returned as [x / 100].  So the answer exceeds 1 only when more than 100 was
    typed: 1 is read as 100 percent, 1.5 as 1.5 percent. *)
Theorem prompt_pct_spec (label : string) (default : Q) (line : string) :
  (blank_line line -> prompt_pct float label default line = Ok (Some default))
  /\ (~ blank_line line ->
      (forall e : exn,
         float (Prompt.strip line) = Raise e ->
         prompt_pct float label default line = Raise e)
      /\ (float (Prompt.strip line) = Ok nan ->
          prompt_pct float label default line = Ok nan)
      /\ (forall x : Q,
            float (Prompt.strip line) = Ok (Some x) ->
            exists r : Q,
              prompt_pct float label default line = Ok (Some r)
              /\ ((x <= 1)%Q -> r = x)
              /\ ((1 < x)%Q -> r = (x / 100.0)%Q)
              /\ ((x <= 100)%Q -> (r <= 1)%Q)
              /\ ((1 < r)%Q -> (100 < x)%Q))).
Proof.
  unfold prompt_pct. cbv zeta. pose proof (strip_eqb_blank line) as Hb.
  destruct (String.eqb (Prompt.strip line) "").
  - split; [done|]. intros Hn. destruct Hn. by apply Hb.
  - split; [intros H%Hb; done|]. intros _. split; [|split].
    + by intros e ->.
    + by intros ->.
    + intros x ->. cbn [bind]. unfold gt, lift2, fl, Qgtb.
      destruct (Qle_bool x 1.0) eqn:Hx; cbn [negb].
      * apply Qle_bool_iff in Hx. eexists. split; [reflexivity|].
        repeat split; intros; try done; Lqa.lra.
      * assert (1 < x)%Q as Hlt.
        { apply Qnot_le_lt. intros Hle.
          assert (x <= 1.0)%Q as Hle' by Lqa.lra.
          apply Qle_bool_iff in Hle'. congruence. }
        assert (x / 100.0 == x * (1 # 100))%Q as Hdiv
          by (unfold Qdiv; apply Qmult_comp; [reflexivity | vm_compute; reflexivity]).
        eexists. split; [reflexivity|].
        repeat split; intros; try done; Lqa.lra.
Qed.

End PctFacts.
